(** * Grouped pagination and facets of restui/models/mappings.py

    A shallow embedding of the two query-set classes [MappingQuerySet]
    (normalized form, rows of table [mapping]) and [MappingViewQuerySet]
    (denormalized form, rows of table [mapping_view]) and of the vocabulary
    class methods of [Mapping] and [MappingView].

    Conventions of the embedding.
    - A Django query set is represented by the list of rows its SQL
      statement selects; the database is a snapshot that does not change
      between the statements of one call.
    - A nullable column is an [option]; SQL NULL is [None].
    - A Python call that can raise returns a [result].
    - Group offsets and limits are natural numbers: Django refuses negative
      indices on a query set.
    - [ORDER BY] is a stable sort; where NULL sorts (above every value as in
      PostgreSQL and Oracle, or below as in SQLite and MySQL) is a
      parameter [nulls_high] of the ordering functions. *)

From stdpp Require Import base option list gmap strings sorting.
From Stdlib Require Import ZArith Lia Ascii.

Set Default Proof Using "Type".

(** ** Python values and control flow *)

Module Py.

Inductive exn : Type :=
  | KeyError
  | TypeError
  | DoesNotExist.

Inductive result (A : Type) : Type :=
  | Ok (a : A)
  | Raise (e : exn).

Arguments Ok {A} a.
Arguments Raise {A} e.

Definition bind {A B} (r : result A) (k : A → result B) : result B :=
  match r with
  | Ok a => k a
  | Raise e => Raise e
  end.

Definition is_ok {A} (r : result A) : bool :=
  match r with Ok _ => true | Raise _ => false end.

(** [for x in xs: st = body st x], stopping at the first exception. *)
Fixpoint for_each {S X} (body : S → X → result S) (xs : list X) (st : S)
  : result S :=
  match xs with
  | [] => Ok st
  | x :: xs' => bind (body st x) (for_each body xs')
  end.

(** [l[lo:hi]] for non-negative bounds. *)
Definition slice {A} (lo hi : nat) (l : list A) : list A :=
  take (hi - lo) (drop lo l).

(** [sum(int(x) for x in l)] *)
Definition sum (l : list nat) : nat := foldr Nat.add 0 l.

(** The [<] of Python 3 on values that are [None] or [str]: two strings
    compare by code points, anything involving [None] is a [TypeError]. *)
Definition lt (a b : option string) : result bool :=
  match a, b with
  | Some x, Some y => Ok (String.ltb x y)
  | _, _ => Raise TypeError
  end.

(** [sorted(l)]: a stable comparison sort that only uses [<]; written as
    the insertion sort, which like the builtin compares every element of a
    list of two or more elements with another one. *)
Fixpoint sorted_insert (x : option string) (l : list (option string))
  : result (list (option string)) :=
  match l with
  | [] => Ok [x]
  | y :: l' =>
      bind (lt x y) (λ b,
        if b then Ok (x :: y :: l')
        else bind (sorted_insert x l') (λ r, Ok (y :: r)))
  end.

Fixpoint sorted_from (acc : list (option string)) (l : list (option string))
  : result (list (option string)) :=
  match l with
  | [] => Ok acc
  | x :: l' => bind (sorted_insert x acc) (λ acc', sorted_from acc' l')
  end.

Definition sorted (l : list (option string)) : result (list (option string)) :=
  sorted_from [] l.

(** An insertion-ordered [dict] whose values are lists, and the statement
    [[
      try:    d[k].append(v)
      except (KeyError, AttributeError): d[k] = [v]
    ]] *)
Section odict.
Context {K V : Type} `{EqDecision K}.

Definition odict : Type := list (K * list V).

Fixpoint getitem (d : odict) (k : K) : result (list V) :=
  match d with
  | [] => Raise KeyError
  | (k', vs) :: d' => if decide (k' = k) then Ok vs else getitem d' k
  end.

(** [d[k] = vs]: replaces in place, or appends a new key at the end. *)
Fixpoint setitem (d : odict) (k : K) (vs : list V) : odict :=
  match d with
  | [] => [(k, vs)]
  | (k', vs') :: d' =>
      if decide (k' = k) then (k', vs) :: d' else (k', vs') :: setitem d' k vs
  end.

Definition append_or_create (d : odict) (k : K) (v : V) : odict :=
  match getitem d k with
  | Ok vs => setitem d k (vs ++ [v])
  | Raise _ => setitem d k [v]
  end.

Definition keys (d : odict) : list K := fst <$> d.

(** Number of values stored over all keys. *)
Definition total_len (d : odict) : nat := sum (length ∘ snd <$> d).
End odict.

Arguments odict K V : clear implicits.

End Py.

#[global] Instance result_ret : MRet Py.result := @Py.Ok.
#[global] Instance result_bind : MBind Py.result := λ A B k r, Py.bind r k.

(** ** The SQL that the Django calls stand for *)

Module Sql.

(** A row of [values(key).annotate(total=Count(...))]. *)
Record GroupCount : Type := mkGroupCount {
  group_key : option Z;
  total : nat
}.

#[global] Instance GroupCount_eq_dec : EqDecision GroupCount.
Proof. solve_decision. Defined.

(** [ORDER BY key ASC] on a nullable integer column. *)
Definition asc_leb (nulls_high : bool) (a b : option Z) : bool :=
  match a, b with
  | None, None => true
  | None, Some _ => negb nulls_high
  | Some _, None => nulls_high
  | Some x, Some y => (x <=? y)%Z
  end.

(** [ORDER BY key DESC] *)
Definition desc_leb (nulls_high : bool) (a b : option Z) : bool :=
  asc_leb nulls_high b a.

Section order_by.
Context {A : Type} (leb : A → A → bool).

Fixpoint insert_row (x : A) (l : list A) : list A :=
  match l with
  | [] => [x]
  | y :: l' => if leb x y then x :: y :: l' else y :: insert_row x l'
  end.

(** Stable: rows with equal keys keep their relative order. *)
Fixpoint order_by (l : list A) : list A :=
  match l with
  | [] => []
  | x :: l' => insert_row x (order_by l')
  end.
End order_by.

(** [COUNT(expr)]: the number of rows on which [expr] is not NULL. *)
Definition count_expr {A} (expr : A → option Z) (rows : list A) : nat :=
  length (filter (λ r, is_Some (expr r)) rows).

(** [values(key).annotate(total=Count(expr))]:
    [SELECT key, COUNT(expr) AS total ... GROUP BY key]. *)
Definition values_annotate_count {A} (key : A → option Z)
    (expr : A → option Z) (rows : list A) : list GroupCount :=
  (λ k, mkGroupCount k (count_expr expr (filter (λ r, key r = k) rows)))
    <$> remove_dups (key <$> rows).

(** [values(col).distinct()] *)
Definition values_distinct {A B} `{EqDecision B} (col : A → B)
    (rows : list A) : list B :=
  remove_dups (col <$> rows).

(** A Django query set that has been built but not read yet is lazy. Its
    query runs when the query set is iterated or measured with [len], and
    the rows read are kept in [_result_cache], from which every later read
    is answered. A slice [q[a:b]] of a query set that has no cache yet is a
    new query set, with [LIMIT] and [OFFSET]: reading it runs a query of its
    own and leaves the cache of [q] empty. *)
Record QuerySet (A : Type) : Type := mkLazy {
  _result_cache : option (list A)
}.
Arguments mkLazy {A} _.
Arguments _result_cache {A} _.

(** What a reader of the query set gets: the cache when there is one, the
    result [run] of its query on the rows of the moment otherwise. *)
Definition fetch {A} (run : list A) (q : QuerySet A) : list A :=
  default run (_result_cache q).

(** [latest(field)]: the row with the greatest [field]; among rows with the
    same greatest value, the first of the table. [DoesNotExist] when there
    is no row. *)
Fixpoint latest_from {A} (field : A → Z) (best : A) (l : list A) : A :=
  match l with
  | [] => best
  | x :: l' =>
      latest_from field (if (field best <? field x)%Z then x else best) l'
  end.

Definition latest {A} (field : A → Z) (l : list A) : Py.result A :=
  match l with
  | [] => Py.Raise Py.DoesNotExist
  | x :: l' => Py.Ok (latest_from field x l')
  end.

End Sql.

(** ** Collaborators declared outside mappings.py *)

(** Modelled from the spec: the model class [EnsemblSpeciesHistory] of
    restui/models/ensembl.py, of which [species()] reads the tax id, the
    load time and the species name. *)
Record EnsemblSpeciesHistory : Type := mkEnsemblSpeciesHistory {
  ensembl_tax_id : option Z;
  time_loaded : Z;
  species_name : option string
}.

(** Modelled from the spec: a row of a controlled-vocabulary table
    ([CvEntryType], [CvUeStatus] of restui/models/annotations.py): an
    identity and its description. *)
Record CvRow : Type := mkCvRow {
  cv_id : Z;
  cv_description : string
}.

(** The row range of a page of groups, as both [grouped_slice] methods
    compute it from the counts:
    [[
        if offset == 0:
            qs_offset = 0
        else:
            qs_offset = sum(int(row['total']) for row in counts[:offset])
        qs_limit = sum(int(row['total']) for row in counts[offset:offset+limit])
    ]] *)
Definition qs_offset (counts : list Sql.GroupCount) (offset : nat) : nat :=
  if decide (offset = 0) then 0
  else Py.sum (Sql.total <$> Py.slice 0 offset counts).

Definition qs_limit (counts : list Sql.GroupCount) (offset limit : nat) : nat :=
  Py.sum (Sql.total <$> Py.slice offset (offset + limit) counts).

(** The three filters of [divergences()], as SQL evaluates them on a
    nullable integer: a comparison with NULL selects nothing. *)
Definition diff_identical (d : option Z) : bool :=
  match d with Some x => (x =? 0)%Z | None => false end.

Definition diff_small (d : option Z) : bool :=
  match d with Some x => (0 <? x)%Z && (x <=? 5)%Z | None => false end.

Definition diff_large (d : option Z) : bool :=
  match d with Some x => (5 <? x)%Z | None => false end.

(** [filter(...).count()] *)
Definition filter_count {A} (p : A → bool) (rows : list A) : nat :=
  length (filter (λ r, p r = true) rows).

(** ** The denormalized form: [MappingViewQuerySet] *)

Module View.

Record MappingView : Type := mkMappingView {
  id : Z;
  mapping_id : option Z;
  alignment_difference : option Z;
  status : option Z;
  uniprot_tax_id : option Z;
  grouping_id : option Z;
  chromosome : option string;
  region_accession : option string;
  uniprot_mapping_status : option string
}.

#[global] Instance MappingView_eq_dec : EqDecision MappingView.
Proof. solve_decision. Defined.

(** The query set object: the rows its query selects in the table as it is
    at the moment, and its attribute [_counts], which is [None] or the
    counts query set that [grouped_counts] stored. When the table changes,
    the object is the same with other [rows]. *)
Record MappingViewQuerySet : Type := mkQuerySet {
  rows : list MappingView;
  _counts : option (Sql.QuerySet Sql.GroupCount)
}.

(** [Case(When(grouping_id__isnull=True, then=1), default=1)] *)
Definition case_isnull_then_1_default_1 (r : MappingView) : option Z :=
  if decide (grouping_id r = None) then Some 1%Z else Some 1%Z.

Definition by_grouping_id_desc (nulls_high : bool) (a b : MappingView) : bool :=
  Sql.desc_leb nulls_high (grouping_id a) (grouping_id b).

Definition counts_desc (nulls_high : bool) (a b : Sql.GroupCount) : bool :=
  Sql.desc_leb nulls_high (Sql.group_key a) (Sql.group_key b).

(** [grouped_counts()] stores the counts query set in [_counts] when the
    attribute is [None], and returns the stored query set; it reads nothing.
    The first component is the sequence that the caller reads from the
    query set returned: its result cache when it has one, the result of its
    query on the rows otherwise. *)
Definition grouped_counts (nulls_high : bool) (self : MappingViewQuerySet)
  : list Sql.GroupCount * MappingViewQuerySet :=
  let run :=
    Sql.order_by (counts_desc nulls_high)
      (Sql.values_annotate_count grouping_id case_isnull_then_1_default_1
         (rows self)) in
  match _counts self with
  | None => (run, mkQuerySet (rows self) (Some (Sql.mkLazy None)))
  | Some q => (Sql.fetch run q, self)
  end.

(** [len(counts)] reads the whole query set, which fills its cache. *)
Definition grouped_count (nulls_high : bool) (self : MappingViewQuerySet)
  : nat * MappingViewQuerySet :=
  let '(counts, self) := grouped_counts nulls_high self in
  (length counts, mkQuerySet (rows self) (Some (Sql.mkLazy (Some counts)))).

(** [counts[:offset]] and [counts[offset:offset+limit]] are slices of the
    cache when the counts have one, and queries of their own otherwise:
    they leave [_counts] as [grouped_counts] left it. *)
Definition grouped_slice (nulls_high : bool) (self : MappingViewQuerySet)
    (offset limit : nat)
  : Py.odict (option Z) MappingView * MappingViewQuerySet :=
  let '(counts, self) := grouped_counts nulls_high self in
  let qs_offset := qs_offset counts offset in
  let qs_limit := qs_limit counts offset limit in
  let sub_qs :=
    Py.slice qs_offset (qs_offset + qs_limit)
      (Sql.order_by (by_grouping_id_desc nulls_high) (rows self)) in
  let grouped_results :=
    foldl (λ d result, Py.append_or_create d (grouping_id result) result)
      [] sub_qs in
  (grouped_results, self).

Definition statuses (self : MappingViewQuerySet) : list (option Z) :=
  Sql.values_distinct status (rows self).

Definition species (table : list EnsemblSpeciesHistory)
    (self : MappingViewQuerySet)
  : Py.result (list (option Z * option string)) :=
  Py.for_each
    (λ species_list tax,
       row ← Sql.latest time_loaded
                (filter (λ h, ensembl_tax_id h = tax) table);
       mret (species_list ++ [(tax, species_name row)]))
    (Sql.values_distinct uniprot_tax_id (rows self)) [].

Definition divergences (self : MappingViewQuerySet) : list nat :=
  let identical := filter_count (diff_identical ∘ alignment_difference) (rows self) in
  let small := filter_count (diff_small ∘ alignment_difference) (rows self) in
  let large := filter_count (diff_large ∘ alignment_difference) (rows self) in
  [identical; small; large].

(** [if pair['chromosome']]: neither [None] nor the empty string. *)
Definition truthy (c : option string) : bool :=
  match c with
  | Some s => negb (String.eqb s "")
  | None => false
  end.

Definition chromosomes (self : MappingViewQuerySet)
  : Py.result (list (option string)) :=
  Py.sorted
    (filter (λ c, truthy c = true) (Sql.values_distinct chromosome (rows self))).

Definition types (self : MappingViewQuerySet) : list (option string) :=
  Sql.values_distinct uniprot_mapping_status (rows self).

(** [region_accession__iregex=r"^CHR"] *)
Definition upper (c : Ascii.ascii) : Ascii.ascii :=
  let n := Ascii.nat_of_ascii c in
  if (97 <=? n) && (n <=? 122) then Ascii.ascii_of_nat (n - 32) else c.

Definition iregex_CHR (a : option string) : bool :=
  match a with
  | Some (String c1 (String c2 (String c3 _))) =>
      bool_decide (upper c1 = "C"%char) && bool_decide (upper c2 = "H"%char)
      && bool_decide (upper c3 = "R"%char)
  | _ => false
  end.

Definition has_patches (self : MappingViewQuerySet) : bool :=
  0 <? filter_count (iregex_CHR ∘ region_accession) (rows self).

End View.

(** ** The normalized form: [MappingQuerySet] *)

Module Norm.

(** A row of table [mapping], with the columns reached through its
    single-valued foreign keys ([transcript__gene__chromosome]) and the rows
    joined through the many-valued path
    transcript, transcripthistory, ensembl_species_history of [species()]. *)
Record Mapping : Type := mkMapping {
  mapping_id : Z;
  alignment_difference : option Z;
  status : Z;
  transcript__gene__chromosome : option string;
  transcript__species_history : list (option Z * option string)
}.

#[global] Instance Mapping_eq_dec : EqDecision Mapping.
Proof. solve_decision. Defined.

Record ReleaseMappingHistory : Type := mkReleaseMappingHistory {
  release_mapping_history_id : Z;
  time_mapped : Z;
  uniprot_taxid : option Z
}.

(** [release_mapping_history] and [mapping] are the foreign keys. *)
Record MappingHistory : Type := mkMappingHistory {
  mapping_history_id : Z;
  release_mapping_history : Z;
  mapping : Z;
  grouping_id : option Z
}.

Record Database : Type := mkDatabase {
  mapping_history_table : list MappingHistory;
  release_mapping_history_table : list ReleaseMappingHistory
}.

(** The query set object: the mappings its query selects in the table as
    it is at the moment, and its attribute [_counts], which is [None] or
    the counts query set that [grouped_counts] stored. *)
Record MappingQuerySet : Type := mkQuerySet {
  rows : list Mapping;
  _counts : option (Sql.QuerySet Sql.GroupCount)
}.

(** The reverse relation [mapping.mapping_history]. *)
Definition mapping_history (db : Database) (m : Mapping) : list MappingHistory :=
  filter (λ h, mapping h = mapping_id m) (mapping_history_table db).

(** Naming [mapping_history__grouping_id] in [values] or [order_by] joins
    [mapping LEFT OUTER JOIN mapping_history]: one row per history entry of
    a mapping, and one row with NULL for a mapping that has none. *)
Definition join_grouping_id (db : Database) (ms : list Mapping)
  : list (Mapping * option Z) :=
  concat ((λ m,
             match mapping_history db m with
             | [] => [(m, None)]
             | hs => (λ h, (m, grouping_id h)) <$> hs
             end) <$> ms).

Definition by_grouping_id_asc (nulls_high : bool) (a b : Mapping * option Z)
  : bool :=
  Sql.asc_leb nulls_high (snd a) (snd b).

Definition counts_asc (nulls_high : bool) (a b : Sql.GroupCount) : bool :=
  Sql.asc_leb nulls_high (Sql.group_key a) (Sql.group_key b).

(** [Count('mapping_history__grouping_id')] is [COUNT] of the column itself.
    [grouped_counts()] stores the counts query set in [_counts] when the
    attribute is [None], and returns the stored query set; it reads nothing.
    The first component is the sequence that the caller reads from the
    query set returned: its result cache when it has one, the result of its
    query on the tables otherwise. *)
Definition grouped_counts (nulls_high : bool) (db : Database)
    (self : MappingQuerySet) : list Sql.GroupCount * MappingQuerySet :=
  let run :=
    Sql.order_by (counts_asc nulls_high)
      (Sql.values_annotate_count snd snd (join_grouping_id db (rows self))) in
  match _counts self with
  | None => (run, mkQuerySet (rows self) (Some (Sql.mkLazy None)))
  | Some q => (Sql.fetch run q, self)
  end.

(** [len(counts)] reads the whole query set, which fills its cache. *)
Definition grouped_count (nulls_high : bool) (db : Database)
    (self : MappingQuerySet) : nat * MappingQuerySet :=
  let '(counts, self) := grouped_counts nulls_high db self in
  (length counts, mkQuerySet (rows self) (Some (Sql.mkLazy (Some counts)))).

(** [result.mapping_history.latest('release_mapping_history__time_mapped')]
    together with its [release_mapping_history]: the history entries of the
    mapping, joined with the release they reference. *)
Definition with_release (db : Database) (hs : list MappingHistory)
  : list (MappingHistory * ReleaseMappingHistory) :=
  omap (λ h,
          r ← head (filter (λ r, release_mapping_history_id r
                                   = release_mapping_history h)
                      (release_mapping_history_table db));
          Some (h, r)) hs.

Definition latest_history (db : Database) (m : Mapping)
  : Py.result (MappingHistory * ReleaseMappingHistory) :=
  Sql.latest (time_mapped ∘ snd) (with_release db (mapping_history db m)).

(** [ReleaseMappingHistory.objects.filter(uniprot_taxid=s).latest('time_mapped')];
    Django turns [=None] into [IS NULL]. *)
Definition species_latest (db : Database) (s : option Z)
  : Py.result ReleaseMappingHistory :=
  Sql.latest time_mapped
    (filter (λ r, uniprot_taxid r = s) (release_mapping_history_table db)).

(** The two dictionaries of the loop. *)
Record LoopState : Type := mkLoopState {
  grouped_results : Py.odict (option Z) Mapping;
  grouped_results_added : gmap (option Z) (gset Z)
}.

(** [grouped_results_added[k]] on a [defaultdict(set)]: a missing key is
    stored with the empty set. *)
Definition defaultdict_get (added : gmap (option Z) (gset Z)) (k : option Z)
  : gset Z * gmap (option Z) (gset Z) :=
  match added !! k with
  | Some s => (s, added)
  | None => (∅, <[k := ∅]> added)
  end.

Definition loop_body (db : Database) (st : LoopState) (result : Mapping)
  : Py.result LoopState :=
  latest ← latest_history db result;
  let grouping_id := grouping_id (fst latest) in
  let '(seen, added) := defaultdict_get (grouped_results_added st) grouping_id in
  if decide (mapping_id result ∈ seen) then
    mret (mkLoopState (grouped_results st) added)
  else
    latest ← latest_history db result;
    let result_rmh := snd latest in
    let result_species := uniprot_taxid result_rmh in
    species_latest_rmh ← species_latest db result_species;
    if decide (release_mapping_history_id result_rmh
               ≠ release_mapping_history_id species_latest_rmh) then
      mret (mkLoopState (grouped_results st) added)
    else
      mret (mkLoopState
              (Py.append_or_create (grouped_results st) grouping_id result)
              (<[grouping_id := {[mapping_id result]} ∪ seen]> added)).

(** The rows of [sub_qs]: the join ordered by the joined grouping id, cut to
    the row range; each row is delivered as its [Mapping] object. *)
Definition sub_qs (nulls_high : bool) (db : Database) (self : MappingQuerySet)
    (qs_offset qs_limit : nat) : list Mapping :=
  fst <$> Py.slice qs_offset (qs_offset + qs_limit)
            (Sql.order_by (by_grouping_id_asc nulls_high)
               (join_grouping_id db (rows self))).

(** The slices of [counts] are slices of the cache when the counts have
    one, and queries of their own otherwise: they leave [_counts] as
    [grouped_counts] left it. *)
Definition grouped_slice (nulls_high : bool) (db : Database)
    (self : MappingQuerySet) (offset limit : nat)
  : Py.result (Py.odict (option Z) Mapping) * MappingQuerySet :=
  let '(counts, self) := grouped_counts nulls_high db self in
  let qs_offset := qs_offset counts offset in
  let qs_limit := qs_limit counts offset limit in
  (st ← Py.for_each (loop_body db)
           (sub_qs nulls_high db self qs_offset qs_limit) (mkLoopState [] ∅);
   mret (grouped_results st),
   self).

Definition statuses (self : MappingQuerySet) : list Z :=
  Sql.values_distinct status (rows self).

Definition join_species_history (ms : list Mapping)
  : list (option Z * option string) :=
  concat ((λ m,
             match transcript__species_history m with
             | [] => [(None, None)]
             | hs => hs
             end) <$> ms).

Definition species (self : MappingQuerySet) : list (option Z * option string) :=
  Sql.values_distinct (λ p, p) (join_species_history (rows self)).

Definition divergences (self : MappingQuerySet) : list nat :=
  let identical := filter_count (diff_identical ∘ alignment_difference) (rows self) in
  let small := filter_count (diff_small ∘ alignment_difference) (rows self) in
  let large := filter_count (diff_large ∘ alignment_difference) (rows self) in
  [identical; small; large].

Definition chromosomes (self : MappingQuerySet)
  : Py.result (list (option string)) :=
  Py.sorted (Sql.values_distinct transcript__gene__chromosome (rows self)).

End Norm.

(** ** The vocabulary class methods of [Mapping] and [MappingView] *)

Module Vocab.

(** The contents of the two vocabulary tables. *)
Record Tables : Type := mkTables {
  CvEntryType_all : list CvRow;
  CvUeStatus_all : list CvRow
}.

(** The class attributes [_entry_type] and [_status_type] of the two model
    classes; they live as long as the process. *)
Record Classes : Type := mkClasses {
  Mapping_entry_type_cache : gmap Z string;
  Mapping_status_type_cache : gmap Z string;
  MappingView_entry_type_cache : gmap Z string;
  MappingView_status_type_cache : gmap Z string
}.

(** [[
      entries = {}
      for entry in table: entries[entry.id] = entry.description
    ]] *)
Definition load (table : list CvRow) : gmap Z string :=
  foldl (λ entries entry, <[cv_id entry := cv_description entry]> entries)
    ∅ table.

(** [if not cls._cache: cls._cache = load(table)]; an empty [dict] is false. *)
Definition ensure (cache : gmap Z string) (table : list CvRow) : gmap Z string :=
  if decide (cache = ∅) then load table else cache.

(** [cache[identity]] *)
Definition subscript (cache : gmap Z string) (identity : Z) : Py.result string :=
  match cache !! identity with
  | Some d => Py.Ok d
  | None => Py.Raise Py.KeyError
  end.

(** [[
      try: return cache[identity]
      except KeyError: pass
      return None
    ]] *)
Definition subscript_or_None (cache : gmap Z string) (identity : Z)
  : option string :=
  match subscript cache identity with
  | Py.Ok d => Some d
  | Py.Raise _ => None
  end.

Definition entry_type (t : Tables) (cls : Classes) (identity : Z)
  : Py.result string * Classes :=
  let cache := ensure (Mapping_entry_type_cache cls) (CvEntryType_all t) in
  (subscript cache identity,
   mkClasses cache (Mapping_status_type_cache cls)
     (MappingView_entry_type_cache cls) (MappingView_status_type_cache cls)).

Definition status_type (t : Tables) (cls : Classes) (identity : Z)
  : Py.result string * Classes :=
  let cache := ensure (Mapping_status_type_cache cls) (CvUeStatus_all t) in
  (subscript cache identity,
   mkClasses (Mapping_entry_type_cache cls) cache
     (MappingView_entry_type_cache cls) (MappingView_status_type_cache cls)).

Definition entry_description (t : Tables) (cls : Classes) (identity : Z)
  : option string * Classes :=
  let cache := ensure (MappingView_entry_type_cache cls) (CvEntryType_all t) in
  (subscript_or_None cache identity,
   mkClasses (Mapping_entry_type_cache cls) (Mapping_status_type_cache cls)
     cache (MappingView_status_type_cache cls)).

Definition status_description (t : Tables) (cls : Classes) (identity : Z)
  : option string * Classes :=
  let cache := ensure (MappingView_status_type_cache cls) (CvUeStatus_all t) in
  (subscript_or_None cache identity,
   mkClasses (Mapping_entry_type_cache cls) (Mapping_status_type_cache cls)
     (MappingView_entry_type_cache cls) cache).

End Vocab.

(** ** The instance methods [difference] and [statuses] of [Mapping] and
    [MappingView] *)

Module Methods.

Section methods.
(** [Float] is the type of the column [score1] and [is_one x] the test
    [x == 1]; [Cigar] is the type of [alignment.pairwise.cigarplus].
    [calculate_difference] of restui/lib/alignments.py is not part of these
    sources: it is a parameter, which returns an integer or raises. *)
Context {Float Cigar : Type}.
Variable is_one : Float → bool.
Variable calculate_difference : Cigar → Py.result Z.

(** A row of [alignment]: [alignment.alignment_run.score1_type],
    [alignment.score1], and what evaluating [alignment.pairwise.cigarplus]
    gives (the relation [pairwise] is declared outside mappings.py, its
    access can raise). *)
Record Alignment : Type := mkAlignment {
  score1_type : option string;
  score1 : option Float;
  pairwise_cigarplus : Py.result Cigar
}.

(** A row of the status history of a mapping: [status.status.id],
    [status.time_stamp], and the [full_name] of [status.user_stamp] when
    there is a user stamp. *)
Record StatusRow : Type := mkStatusRow {
  status_id : Z;
  time_stamp : Z;
  user_stamp : option string
}.

(** A row of [mapping] with its related rows [alignments] and
    [status_history]. *)
Record MappingRow : Type := mkMappingRow {
  pk : Z;
  alignments : list Alignment;
  status_history : list StatusRow
}.

(** [Mapping.objects.get(pk=mapping_id)]; the primary key is unique. *)
Definition get_mapping (table : list MappingRow) (mapping_id : option Z)
  : Py.result MappingRow :=
  match mapping_id with
  | None => Py.Raise Py.DoesNotExist
  | Some i =>
      match filter (λ m, pk m = i) table with
      | [] => Py.Raise Py.DoesNotExist
      | m :: _ => Py.Ok m
      end
  end.

(** [alignment.alignment_run.score1_type == 'perfect_match' and
    alignment.score1 == 1] *)
Definition perfect_match (a : Alignment) : bool :=
  bool_decide (score1_type a = Some "perfect_match"%string)
  && from_option is_one false (score1 a).

(** [alignment.alignment_run.score1_type == 'identity'] *)
Definition identity (a : Alignment) : bool :=
  bool_decide (score1_type a = Some "identity"%string).

(** [calculate_difference(alignment.pairwise.cigarplus)] *)
Definition alignment_difference (a : Alignment) : Py.result Z :=
  cigarplus ← pairwise_cigarplus a;
  calculate_difference cigarplus.

(** [if diff_count: return diff_count] and [return None]: 0 is false. *)
Definition truthy_or_None (diff_count : option Z) : option Z :=
  match diff_count with
  | Some d => if (d =? 0)%Z then None else Some d
  | None => None
  end.

(** The loop of [Mapping.difference] from a value of [diff_count] on, with
    the two statements after it. *)
Fixpoint Mapping_difference_from (diff_count : option Z)
    (alignments : list Alignment) : Py.result (option Z) :=
  match alignments with
  | [] => Py.Ok (truthy_or_None diff_count)
  | alignment :: rest =>
      if perfect_match alignment then Py.Ok (Some 0%Z)
      else if identity alignment then
        d ← alignment_difference alignment;
        Mapping_difference_from (Some d) rest
      else Mapping_difference_from diff_count rest
  end.

Definition Mapping_difference (self : MappingRow) : Py.result (option Z) :=
  Mapping_difference_from None (alignments self).

(** The loop of [MappingView.difference] inside its [try]; an exception
    ends it at [except: pass], and [diff_count] is returned as it is then. *)
Fixpoint MappingView_difference_from (diff_count : option Z)
    (alignments : list Alignment) : option Z :=
  match alignments with
  | [] => diff_count
  | alignment :: rest =>
      if perfect_match alignment then Some 0%Z
      else if identity alignment then
        match alignment_difference alignment with
        | Py.Ok d => MappingView_difference_from (Some d) rest
        | Py.Raise _ => diff_count
        end
      else MappingView_difference_from diff_count rest
  end.

Definition MappingView_difference (table : list MappingRow)
    (mapping_id : option Z) : option Z :=
  match get_mapping table mapping_id with
  | Py.Ok mapping => MappingView_difference_from None (alignments mapping)
  | Py.Raise _ => None
  end.

(** An entry of the list that [statuses] returns. *)
Record StatusEntry : Type := mkStatusEntry {
  entry_status : option string;
  entry_time_stamp : Z;
  entry_user : option string
}.

(** [order_by('time_stamp')] *)
Definition by_time_stamp (a b : StatusRow) : bool :=
  (time_stamp a <=? time_stamp b)%Z.

(** [user = status.user_stamp.full_name if usernames and status.user_stamp
    else None] *)
Definition user_of (usernames : bool) (status : StatusRow) : option string :=
  if usernames && bool_decide (is_Some (user_stamp status))
  then user_stamp status else None.

(** The loop of [Mapping.statuses]; [Mapping.status_type] can raise
    [KeyError] and leaves its map in the class. *)
Fixpoint Mapping_statuses_from (t : Vocab.Tables) (usernames : bool)
    (statuses : list StatusEntry) (cls : Vocab.Classes)
    (status_set : list StatusRow)
  : Py.result (list StatusEntry) * Vocab.Classes :=
  match status_set with
  | [] => (Py.Ok statuses, cls)
  | status :: rest =>
      let user := user_of usernames status in
      match Vocab.status_type t cls (status_id status) with
      | (Py.Ok description, cls) =>
          Mapping_statuses_from t usernames
            (statuses ++ [mkStatusEntry (Some description) (time_stamp status) user])
            cls rest
      | (Py.Raise e, cls) => (Py.Raise e, cls)
      end
  end.

Definition Mapping_statuses (t : Vocab.Tables) (cls : Vocab.Classes)
    (self : MappingRow) (usernames : bool)
  : Py.result (list StatusEntry) * Vocab.Classes :=
  Mapping_statuses_from t usernames [] cls
    (Sql.order_by by_time_stamp (status_history self)).

(** The class methods that the body of class [MappingView] defines; looking
    up another name on the class is an [AttributeError]. *)
Definition MappingView_classmethods
  : list (string * (Vocab.Tables → Vocab.Classes → Z → option string * Vocab.Classes)) :=
  [("entry_description"%string, Vocab.entry_description);
   ("status_description"%string, Vocab.status_description)].

(** [MappingView.<name>]: [None] stands for the [AttributeError]. *)
Definition MappingView_getattr (name : string)
  : option (Vocab.Tables → Vocab.Classes → Z → option string * Vocab.Classes) :=
  snd <$> head (filter (λ p, p.1 = name) MappingView_classmethods).

(** The loop of [MappingView.statuses] inside its [try]. The [append] is in
    the [else] branch, and its argument calls [MappingView.status_type]. *)
Fixpoint MappingView_statuses_from (t : Vocab.Tables) (usernames : bool)
    (statuses : list StatusEntry) (cls : Vocab.Classes)
    (status_set : list StatusRow) : list StatusEntry * Vocab.Classes :=
  match status_set with
  | [] => (statuses, cls)
  | status :: rest =>
      if usernames && bool_decide (is_Some (user_stamp status)) then
        MappingView_statuses_from t usernames statuses cls rest
      else
        match MappingView_getattr "status_type" with
        | None => (statuses, cls)
        | Some status_type =>
            let '(description, cls) := status_type t cls (status_id status) in
            MappingView_statuses_from t usernames
              (statuses ++ [mkStatusEntry description (time_stamp status) None])
              cls rest
        end
  end.

Definition MappingView_statuses (t : Vocab.Tables) (cls : Vocab.Classes)
    (table : list MappingRow) (mapping_id : option Z) (usernames : bool)
  : list StatusEntry * Vocab.Classes :=
  match get_mapping table mapping_id with
  | Py.Ok mapping =>
      MappingView_statuses_from t usernames [] cls
        (Sql.order_by by_time_stamp (status_history mapping))
  | Py.Raise _ => ([], cls)
  end.

End methods.

End Methods.

(** ** Vocabulary of the statements *)

(** The ['total'] of the entry at index [i], 0 when there is no such entry. *)
Definition total_at (counts : list Sql.GroupCount) (i : nat) : nat :=
  from_option Sql.total 0 (counts !! i).

(** The buckets of [divergences()], in the words of the specification. *)
Definition is_zero (d : option Z) : bool :=
  bool_decide (d = Some 0%Z).

Definition in_0_5 (d : option Z) : bool :=
  match d with Some x => bool_decide (0 < x ≤ 5)%Z | None => false end.

Definition above_5 (d : option Z) : bool :=
  match d with Some x => bool_decide (5 < x)%Z | None => false end.

Definition not_null_not_negative (d : option Z) : bool :=
  match d with Some x => bool_decide (0 ≤ x)%Z | None => false end.

(** [a] does not come after [b]: Python finds [b < a] false. *)
Definition not_after (a b : option string) : Prop :=
  Py.lt b a = Py.Ok false.

(** A chromosome label: a string that is not empty. *)
Definition is_label (c : option string) : Prop :=
  ∃ s, c = Some s ∧ s ≠ ""%string.

(** The list stored under a key of an ordered dictionary, [[]] when the key
    is missing. *)
Definition values_of {K V} `{EqDecision K} (d : Py.odict K V) (k : K) : list V :=
  match Py.getitem d k with
  | Py.Ok vs => vs
  | Py.Raise _ => []
  end.

(** The rows that have a given group key, in the order of the row set. *)
Definition group_of {A} (key : A → option Z) (rows : list A) (k : option Z)
  : list A :=
  filter (λ r, key r = k) rows.

(** The group keys of a row set of the view, in the order of [grouped_counts]. *)
Definition view_keys (nulls_high : bool) (rows : list View.MappingView)
  : list (option Z) :=
  Sql.order_by (Sql.desc_leb nulls_high)
    (remove_dups (View.grouping_id <$> rows)).

(** The rows that [MappingViewQuerySet.grouped_slice] fetches. *)
Definition view_fetched (nulls_high : bool) (self : View.MappingViewQuerySet)
    (offset limit : nat) : list View.MappingView :=
  let counts := (View.grouped_counts nulls_high self).1 in
  Py.slice (qs_offset counts offset)
    (qs_offset counts offset + qs_limit counts offset limit)
    (Sql.order_by (View.by_grouping_id_desc nulls_high) (View.rows self)).

(** The rows that [MappingQuerySet.grouped_slice] fetches. *)
Definition norm_fetched (nulls_high : bool) (db : Norm.Database)
    (self : Norm.MappingQuerySet) (offset limit : nat) : list Norm.Mapping :=
  let counts := (Norm.grouped_counts nulls_high db self).1 in
  Norm.sub_qs nulls_high db self (qs_offset counts offset)
    (qs_limit counts offset limit).

(** A stale row: its most recently mapped history entry references a release
    that is not the latest release of the species of that release. *)
Definition stale (db : Norm.Database) (m : Norm.Mapping) : Prop :=
  ∃ h rmh latest,
    Norm.latest_history db m = Py.Ok (h, rmh)
    ∧ Norm.species_latest db (Norm.uniprot_taxid rmh) = Py.Ok latest
    ∧ Norm.release_mapping_history_id rmh
      ≠ Norm.release_mapping_history_id latest.

(** The mapping ids recorded under a key of [grouped_results_added]. *)
Definition added_set (added : gmap (option Z) (gset Z)) (k : option Z) : gset Z :=
  default ∅ (added !! k).

(** What holds of the two dictionaries at every turn of the loop of the
    normalized [grouped_slice]: a list has no two rows with the same mapping
    id, and each of its rows is recorded under the key of the list and is
    not stale. *)
Definition loop_inv (db : Norm.Database) (st : Norm.LoopState) : Prop :=
  ∀ k vs, (k, vs) ∈ Norm.grouped_results st →
    NoDup (Norm.mapping_id <$> vs)
    ∧ ∀ r, r ∈ vs →
        Norm.mapping_id r ∈ added_set (Norm.grouped_results_added st) k
        ∧ ¬ stale db r.

(** Further facts of every turn of that loop: the keys of [grouped_results]
    are distinct, a recorded mapping id is the id of a row of the list of
    its key, and a row is listed under the grouping id of its latest history
    entry. *)
Definition loop_recorded (db : Norm.Database) (st : Norm.LoopState) : Prop :=
  NoDup (Py.keys (Norm.grouped_results st))
  ∧ (∀ k x, x ∈ added_set (Norm.grouped_results_added st) k →
       ∃ r, r ∈ values_of (Norm.grouped_results st) k ∧ Norm.mapping_id r = x)
  ∧ (∀ k r, r ∈ values_of (Norm.grouped_results st) k →
       ∃ h rmh, Norm.latest_history db r = Py.Ok (h, rmh)
                ∧ Norm.grouping_id h = k).

(** ** Example data *)

(** A row of the view and a mapping, with the columns the examples vary. *)
Definition view_row (pk : Z) (mapping : option Z) (grouping : option Z)
    (difference : option Z) (chr : option string) : View.MappingView :=
  View.mkMappingView pk mapping difference (Some 1%Z) (Some 9606%Z) grouping
    chr None None.

Definition mapping_row (pk : Z) (difference : option Z) (chr : option string)
  : Norm.Mapping :=
  Norm.mkMapping pk difference 1%Z chr [].

(** Two releases of the same species; mapping 1 was last mapped in the older
    one, mapping 2 has two history entries in the newer one. *)
Definition example_db : Norm.Database :=
  Norm.mkDatabase
    [Norm.mkMappingHistory 1 1 1 (Some 1%Z);
     Norm.mkMappingHistory 2 2 2 (Some 1%Z);
     Norm.mkMappingHistory 3 2 2 (Some 1%Z)]
    [Norm.mkReleaseMappingHistory 1 10 (Some 9606%Z);
     Norm.mkReleaseMappingHistory 2 20 (Some 9606%Z)].

Definition stale_mapping : Norm.Mapping := mapping_row 1 (Some 0%Z) None.
Definition current_mapping : Norm.Mapping := mapping_row 2 (Some 0%Z) None.

(** Ten mappings with one history entry each, all in the one release of
    their species; their grouping ids are 1,1,1,2,2,3,3,3,3,3. *)
Definition paging_groups : list (Z * Z) :=
  [(1, 1); (2, 1); (3, 1); (4, 2); (5, 2);
   (6, 3); (7, 3); (8, 3); (9, 3); (10, 3)]%Z.

Definition paging_db : Norm.Database :=
  Norm.mkDatabase
    ((λ p : Z * Z, Norm.mkMappingHistory p.1 1 p.1 (Some p.2)) <$> paging_groups)
    [Norm.mkReleaseMappingHistory 1 10 (Some 9606%Z)].


(** Ten rows of the view, whose grouping ids are 3,3,3,2,2,1,1,1,1,1: the
    view is paged in descending order of the grouping id. *)
Definition paging_view_rows : list View.MappingView :=
  (λ p : Z * Z, view_row p.1 (Some p.1) (Some (4 - p.2)%Z) None None)
    <$> paging_groups.




(** Mapping 1 has a history entry without a grouping id, mapping 2 one with
    the grouping id 1; both are in the one release of their species. *)
Definition null_group_db : Norm.Database :=
  Norm.mkDatabase
    [Norm.mkMappingHistory 1 1 1 None;
     Norm.mkMappingHistory 2 1 2 (Some 1%Z)]
    [Norm.mkReleaseMappingHistory 1 10 (Some 9606%Z)].

Definition null_group_mappings : list Norm.Mapping :=
  [mapping_row 1 None None; mapping_row 2 None None].


(** The joined grouping ids of a row set of the normalized form, in the
    order of [grouped_counts]. *)
Definition norm_keys (nulls_high : bool) (db : Norm.Database)
    (rows : list Norm.Mapping) : list (option Z) :=
  Sql.order_by (Sql.asc_leb nulls_high)
    (remove_dups (snd <$> Norm.join_grouping_id db rows)).

(** A mapping without history: it has no history entry whose release
    exists. *)
Definition no_history (db : Norm.Database) (m : Norm.Mapping) : Prop :=
  Norm.with_release db (Norm.mapping_history db m) = [].

(** Alignments with an integer score and a difference that is stored: the
    calculation returns it. A mapping whose one alignment of type
    [identity] has the difference 0, and a mapping whose second alignment
    has no [pairwise]. *)
Definition stored_difference (cigarplus : Z) : Py.result Z := Py.Ok cigarplus.

Definition identical_mapping : Methods.MappingRow (Float:=Z) (Cigar:=Z) :=
  Methods.mkMappingRow 1
    [Methods.mkAlignment (Some "identity"%string) (Some 0%Z) (Py.Ok 0%Z)] [].

Definition broken_mapping : Methods.MappingRow (Float:=Z) (Cigar:=Z) :=
  Methods.mkMappingRow 2
    [Methods.mkAlignment (Some "identity"%string) (Some 0%Z) (Py.Ok 3%Z);
     Methods.mkAlignment (Some "identity"%string) (Some 0%Z)
       (Py.Raise Py.DoesNotExist)] [].

(** A vocabulary with one status, a mapping with two history rows of that
    status, and a mapping with a history row of an unknown status. *)
Definition status_tables : Vocab.Tables :=
  Vocab.mkTables [] [mkCvRow 1 "Reviewed"].

Definition reviewed_mapping : Methods.MappingRow (Float:=Z) (Cigar:=Z) :=
  Methods.mkMappingRow 1 []
    [Methods.mkStatusRow 1 20 (Some "Ann"%string); Methods.mkStatusRow 1 10 None].

Definition unknown_status_mapping : Methods.MappingRow (Float:=Z) (Cigar:=Z) :=
  Methods.mkMappingRow 2 [] [Methods.mkStatusRow 9 10 None].

(** The grouping id of the most recently mapped history entry of a mapping,
    NULL when it has none. *)
Definition latest_grouping_id (db : Norm.Database) (m : Norm.Mapping)
  : option Z :=
  match Norm.latest_history db m with
  | Py.Ok (h, _) => Norm.grouping_id h
  | Py.Raise _ => None
  end.

(** A row set of the normalized form without the irregularities that the
    loop of [grouped_slice] masks: the mapping ids are distinct, and every
    mapping has exactly one history entry, which has a grouping id and is in
    the latest release of its species. *)
Definition regular (db : Norm.Database) (rows : list Norm.Mapping) : Prop :=
  NoDup (Norm.mapping_id <$> rows)
  ∧ ∀ m, m ∈ rows →
      ¬ stale db m
      ∧ ∃ h rmh g,
          Norm.mapping_history db m = [h]
          ∧ Norm.grouping_id h = Some g
          ∧ Norm.latest_history db m = Py.Ok (h, rmh).

(** An accession that begins with the letters c, h, r in either case. *)
Definition starts_with_chr (a : option string) : Prop :=
  ∃ c1 c2 c3 rest,
    a = Some (String c1 (String c2 (String c3 rest)))
    ∧ (c1 = "C"%char ∨ c1 = "c"%char)
    ∧ (c2 = "H"%char ∨ c2 = "h"%char)
    ∧ (c3 = "R"%char ∨ c3 = "r"%char).

(** The pairs a mapping contributes to the join of [species()]: those of the
    species history of its transcript, or one pair of NULLs when there is
    none. *)
Definition species_pair_of (m : Norm.Mapping) (p : option Z * option string)
  : Prop :=
  p ∈ Norm.transcript__species_history m
  ∨ (Norm.transcript__species_history m = [] ∧ p = (None, None)).
(** * Properties *)

(** ** Sums over slices of the counts *)

Lemma sum_zero_lookups (counts : list Sql.GroupCount) (lo n : nat) :
  length counts ≤ lo → Py.sum (total_at counts <$> seq lo n) = 0.
Proof.
  revert lo. induction n as [|n IH]; intros lo Hlo; simpl; [done|].
  rewrite IH by lia. unfold total_at.
  by rewrite (lookup_ge_None_2 counts lo) by lia.
Qed.

Lemma sum_slice_indices (counts : list Sql.GroupCount) (lo n : nat) :
  Py.sum (Sql.total <$> Py.slice lo (lo + n) counts)
  = Py.sum (total_at counts <$> seq lo n).
Proof.
  unfold Py.slice. replace (lo + n - lo) with n by lia.
  revert lo. induction n as [|n IH]; intros lo; simpl.
  - done.
  - destruct (counts !! lo) as [c|] eqn:Hc.
    + rewrite (drop_S _ _ _ Hc). simpl. rewrite IH.
      unfold total_at at 2. by rewrite Hc.
    + apply lookup_ge_None_1 in Hc. rewrite drop_ge by lia.
      rewrite take_nil. simpl. rewrite sum_zero_lookups by lia.
      unfold total_at. by rewrite (lookup_ge_None_2 counts lo) by lia.
Qed.


Lemma qs_limit_indices (counts : list Sql.GroupCount) (offset limit : nat) :
  qs_limit counts offset limit = Py.sum (total_at counts <$> seq offset limit).
Proof. apply sum_slice_indices. Qed.

Lemma qs_limit_beyond (counts : list Sql.GroupCount) (offset limit : nat) :
  length counts ≤ offset → qs_limit counts offset limit = 0.
Proof. intros H. rewrite qs_limit_indices. by apply sum_zero_lookups. Qed.

Lemma qs_limit_zero (counts : list Sql.GroupCount) (offset : nat) :
  qs_limit counts offset 0 = 0.
Proof. by rewrite qs_limit_indices. Qed.

Lemma slice_empty {A} (lo : nat) (l : list A) : Py.slice lo (lo + 0) l = [].
Proof. unfold Py.slice. replace (lo + 0 - lo) with 0 by lia. done. Qed.

Lemma length_slice_le {A} (lo n : nat) (l : list A) :
  length (Py.slice lo (lo + n) l) ≤ n.
Proof. unfold Py.slice. rewrite length_take. lia. Qed.

(** ** Counting filters *)

Lemma filter_count_cons {A} (p : A → bool) (x : A) (l : list A) :
  filter_count p (x :: l) = (if p x then 1 else 0) + filter_count p l.
Proof.
  unfold filter_count. rewrite filter_cons.
  destruct (p x); case_decide; simpl; congruence.
Qed.

Lemma filter_count_ext {A} (p q : A → bool) (l : list A) :
  (∀ x, p x = q x) → filter_count p l = filter_count q l.
Proof.
  intros Hpq. induction l as [|x l IH]; [done|].
  by rewrite !filter_count_cons, Hpq, IH.
Qed.

Lemma diff_identical_spec (d : option Z) : diff_identical d = is_zero d.
Proof.
  destruct d as [x|]; [|done]. unfold diff_identical, is_zero.
  destruct (Z.eqb_spec x 0) as [->|Hx]; [done|].
  rewrite bool_decide_eq_false_2; [done | congruence].
Qed.

Lemma diff_small_spec (d : option Z) : diff_small d = in_0_5 d.
Proof.
  destruct d as [x|]; [|done]. unfold diff_small, in_0_5.
  destruct (Z.ltb_spec 0 x), (Z.leb_spec x 5); symmetry;
    (apply bool_decide_eq_true_2 || apply bool_decide_eq_false_2); lia.
Qed.

Lemma diff_large_spec (d : option Z) : diff_large d = above_5 d.
Proof.
  destruct d as [x|]; [|done]. unfold diff_large, above_5.
  destruct (Z.ltb_spec 5 x); symmetry;
    (apply bool_decide_eq_true_2 || apply bool_decide_eq_false_2); lia.
Qed.

Lemma one_bucket (d : option Z) :
  (if diff_identical d then 1 else 0) + (if diff_small d then 1 else 0)
  + (if diff_large d then 1 else 0)
  = if not_null_not_negative d then 1 else 0.
Proof.
  destruct d as [x|]; [|done].
  unfold diff_identical, diff_small, diff_large, not_null_not_negative.
  destruct (Z.eqb_spec x 0), (Z.ltb_spec 0 x), (Z.leb_spec x 5),
    (Z.ltb_spec 5 x); try lia;
    first [rewrite bool_decide_eq_true_2 by lia
          | rewrite bool_decide_eq_false_2 by lia];
    done.
Qed.

Lemma buckets_sum {A} (d : A → option Z) (rows : list A) :
  filter_count (diff_identical ∘ d) rows + filter_count (diff_small ∘ d) rows
  + filter_count (diff_large ∘ d) rows
  = filter_count (not_null_not_negative ∘ d) rows.
Proof.
  induction rows as [|r rows IH]; [done|].
  rewrite !filter_count_cons. simpl.
  pose proof (one_bucket (d r)). lia.
Qed.

(** C7, as amended: [divergences()] returns the three counts
    [identical, small, large] of the rows whose alignment difference is 0,
    is in (0, 5], and is above 5, in both query-set classes. A row whose
    difference is NULL or negative is in no bucket, so the three counts add up
    to the number of rows whose difference is neither NULL nor negative.
    Differences [0, 0, 3, 7, NULL] give [2, 1, 1]. *)
Theorem divergences_buckets :
  (∀ self : View.MappingViewQuerySet,
     View.divergences self
     = [filter_count (is_zero ∘ View.alignment_difference) (View.rows self);
        filter_count (in_0_5 ∘ View.alignment_difference) (View.rows self);
        filter_count (above_5 ∘ View.alignment_difference) (View.rows self)]
     ∧ Py.sum (View.divergences self)
       = filter_count (not_null_not_negative ∘ View.alignment_difference)
           (View.rows self))
  ∧ (∀ self : Norm.MappingQuerySet,
     Norm.divergences self
     = [filter_count (is_zero ∘ Norm.alignment_difference) (Norm.rows self);
        filter_count (in_0_5 ∘ Norm.alignment_difference) (Norm.rows self);
        filter_count (above_5 ∘ Norm.alignment_difference) (Norm.rows self)]
     ∧ Py.sum (Norm.divergences self)
       = filter_count (not_null_not_negative ∘ Norm.alignment_difference)
           (Norm.rows self))
  ∧ (∀ rows : list View.MappingView,
       View.alignment_difference <$> rows
       = [Some 0; Some 0; Some 3; Some 7; None]%Z →
       View.divergences (View.mkQuerySet rows None) = [2; 1; 1])
  ∧ (∀ rows : list Norm.Mapping,
       Norm.alignment_difference <$> rows
       = [Some 0; Some 0; Some 3; Some 7; None]%Z →
       Norm.divergences (Norm.mkQuerySet rows None) = [2; 1; 1]).
Proof.
  split_and!.
  - intros self. split.
    + unfold View.divergences. f_equal; [|f_equal; [|f_equal]];
        apply filter_count_ext; intros r; simpl;
        auto using diff_identical_spec, diff_small_spec, diff_large_spec.
    + unfold View.divergences. simpl.
      rewrite <- (buckets_sum View.alignment_difference). lia.
  - intros self. split.
    + unfold Norm.divergences. f_equal; [|f_equal; [|f_equal]];
        apply filter_count_ext; intros r; simpl;
        auto using diff_identical_spec, diff_small_spec, diff_large_spec.
    + unfold Norm.divergences. simpl.
      rewrite <- (buckets_sum Norm.alignment_difference). lia.
  - intros rows Hd.
    destruct rows as [|r1 [|r2 [|r3 [|r4 [|r5 [|r6 rows]]]]]]; try discriminate Hd.
    simpl in Hd. injection Hd as H1 H2 H3 H4 H5.
    unfold View.divergences. simpl. rewrite !filter_count_cons. simpl.
    by rewrite H1, H2, H3, H4, H5.
  - intros rows Hd.
    destruct rows as [|r1 [|r2 [|r3 [|r4 [|r5 [|r6 rows]]]]]]; try discriminate Hd.
    simpl in Hd. injection Hd as H1 H2 H3 H4 H5.
    unfold Norm.divergences. simpl. rewrite !filter_count_cons. simpl.
    by rewrite H1, H2, H3, H4, H5.
Qed.

Lemma divergences_buckets_witness :
  View.divergences
    (View.mkQuerySet
       [view_row 1 (Some 1%Z) (Some 1%Z) (Some 0%Z) None;
        view_row 2 (Some 2%Z) (Some 1%Z) (Some 0%Z) None;
        view_row 3 (Some 3%Z) (Some 1%Z) (Some 3%Z) None;
        view_row 4 (Some 4%Z) (Some 2%Z) (Some 7%Z) None;
        view_row 5 (Some 5%Z) (Some 2%Z) None None] None) = [2; 1; 1]
  ∧ Norm.divergences
      (Norm.mkQuerySet
         [mapping_row 1 (Some 0%Z) None; mapping_row 2 (Some 0%Z) None;
          mapping_row 3 (Some 3%Z) None; mapping_row 4 (Some 7%Z) None;
          mapping_row 5 None None] None) = [2; 1; 1].
Proof.
  destruct divergences_buckets as (_ & _ & Hview & Hnorm).
  split; [apply Hview | apply Hnorm]; reflexivity.
Defined.

(** C7 as stated fails: a row with the difference -1 has a difference that
    is not NULL, and is counted in no bucket. *)
Lemma divergences_negative_difference :
  let self := View.mkQuerySet [view_row 1 (Some 1%Z) (Some 1%Z) (Some (-1)%Z) None] None in
  View.divergences self = [0; 0; 0]
  ∧ Py.sum (View.divergences self)
    ≠ length (filter (λ r, is_Some (View.alignment_difference r)) (View.rows self)).
Proof. split; [reflexivity | vm_compute; lia]. Qed.

(** ** The vocabulary maps *)

Lemma load_from_lookup (table : list CvRow) (acc : gmap Z string) (identity : Z) :
  foldl (λ entries entry, <[cv_id entry := cv_description entry]> entries)
    acc table !! identity
  = match last (filter (λ r, cv_id r = identity) table) with
    | Some r => Some (cv_description r)
    | None => acc !! identity
    end.
Proof.
  revert acc. induction table as [|r table IH]; intros acc; [done|].
  simpl. rewrite IH, filter_cons. case_decide as Hid.
  - rewrite last_cons. destruct (last (filter _ table)); [done|].
    by rewrite <- Hid, lookup_insert_eq.
  - destruct (last (filter _ table)); [done|].
    by rewrite lookup_insert_ne.
Qed.

Lemma load_lookup (table : list CvRow) (identity : Z) :
  Vocab.load table !! identity
  = cv_description <$> last (filter (λ r, cv_id r = identity) table).
Proof.
  unfold Vocab.load. rewrite load_from_lookup.
  by destruct (last (filter _ table)).
Qed.


(** ** Python's [sorted] on nullable strings *)

Lemma ltb_asym (x y : string) : String.ltb x y = true → String.ltb y x = false.
Proof.
  unfold String.ltb. rewrite (String.compare_antisym x y).
  by destruct (String.compare y x).
Qed.

Lemma sorted_insert_strings (x : option string) (acc : list (option string)) :
  is_Some x → Forall is_Some acc →
  ∃ r, Py.sorted_insert x acc = Py.Ok r
       ∧ Forall is_Some r ∧ r ≡ₚ x :: acc ∧ r ≠ []
       ∧ (Sorted not_after acc → Sorted not_after r).
Proof.
  intros [s ->]. induction acc as [|y acc IH]; intros Hacc.
  - exists [Some s]. simpl. split_and!; auto.
  - apply Forall_cons in Hacc as [[t ->] Hacc].
    destruct (IH Hacc) as (r & Hr & Hsome & Hperm & _ & Hsorted).
    simpl. destruct (String.ltb s t) eqn:Hlt.
    + exists (Some s :: Some t :: acc). split_and!.
      * done.
      * by repeat (constructor; [by eexists|]).
      * done.
      * done.
      * intros Hs. constructor; [done|]. constructor.
        unfold not_after. simpl. by rewrite (ltb_asym s t).
    + rewrite Hr. simpl. exists (Some t :: r). split_and!.
      * done.
      * constructor; [by eexists | done].
      * rewrite Hperm. apply perm_swap.
      * done.
      * intros Hs. apply Sorted_inv in Hs as [Hs Hhd].
        constructor; [by apply Hsorted|].
        clear -Hr Hhd Hlt. destruct acc as [|a acc].
        { simpl in Hr. injection Hr as <-. constructor.
          unfold not_after. simpl. by rewrite Hlt. }
        apply HdRel_inv in Hhd. destruct a as [u|]; [|done]. simpl in Hr.
        destruct (String.ltb s u); simpl in Hr.
        -- injection Hr as <-. constructor.
           unfold not_after. simpl. by rewrite Hlt.
        -- destruct (Py.sorted_insert (Some s) acc); simpl in Hr; [|done].
           injection Hr as <-. by constructor.
Qed.

Lemma sorted_insert_None (acc : list (option string)) :
  acc ≠ [] → Py.sorted_insert None acc = Py.Raise Py.TypeError.
Proof. by destruct acc. Qed.

Lemma sorted_from_strings (acc l : list (option string)) :
  Forall is_Some acc → Forall is_Some l →
  ∃ r, Py.sorted_from acc l = Py.Ok r
       ∧ Forall is_Some r ∧ r ≡ₚ acc ++ l
       ∧ (Sorted not_after acc → Sorted not_after r).
Proof.
  revert acc. induction l as [|x l IH]; intros acc Hacc Hl.
  - exists acc. simpl. by rewrite app_nil_r.
  - apply Forall_cons in Hl as [Hx Hl].
    destruct (sorted_insert_strings x acc Hx Hacc)
      as (r & Hr & Hsome & Hperm & _ & Hsorted).
    destruct (IH r Hsome Hl) as (r' & Hr' & Hsome' & Hperm' & Hsorted').
    exists r'. simpl. rewrite Hr. simpl. split_and!; auto.
    rewrite Hperm', Hperm. simpl. apply Permutation_middle.
Qed.

Lemma sorted_from_None (acc l : list (option string)) :
  Forall is_Some acc → acc ≠ [] → None ∈ l →
  Py.sorted_from acc l = Py.Raise Py.TypeError.
Proof.
  revert acc. induction l as [|x l IH]; intros acc Hacc Hne Hin.
  - by apply elem_of_nil in Hin.
  - simpl. destruct x as [s|].
    + destruct (sorted_insert_strings (Some s) acc) as (r & Hr & Hsome & _ & Hr0 & _);
        [by eexists | done |].
      rewrite Hr. simpl. apply IH; auto.
      apply elem_of_cons in Hin as [?|?]; [done|auto].
    + by rewrite sorted_insert_None.
Qed.

(** [sorted] raises exactly on a list of two or more values one of which
    is [None]. *)
Lemma sorted_raises (l : list (option string)) :
  None ∈ l → 2 ≤ length l → Py.sorted l = Py.Raise Py.TypeError.
Proof.
  intros Hin Hlen. unfold Py.sorted.
  destruct l as [|x [|y l]]; simpl in Hlen; try lia.
  destruct x as [s|].
  - change (Py.sorted_from [] (Some s :: y :: l))
      with (Py.sorted_from [Some s] (y :: l)).
    apply sorted_from_None; [by repeat constructor | done |].
    apply elem_of_cons in Hin as [?|?]; [done|auto].
  - simpl. by destruct y.
Qed.

Lemma sorted_returns (l : list (option string)) :
  None ∉ l ∨ length l ≤ 1 →
  ∃ r, Py.sorted l = Py.Ok r ∧ r ≡ₚ l ∧ Sorted not_after r.
Proof.
  intros [Hnone|Hlen].
  - destruct (sorted_from_strings [] l) as (r & Hr & _ & Hperm & Hsorted).
    + constructor.
    + apply Forall_forall. intros [s|] Hx; [by eexists | done].
    + exists r. split_and!; [done | done | apply Hsorted; constructor].
  - destruct l as [|x [|y l]]; simpl in Hlen; try lia.
    + exists []. split_and!; [done | done | constructor].
    + exists [x]. split_and!; [done | done | by repeat constructor].
Qed.

Lemma truthy_label (c : option string) : View.truthy c = true ↔ is_label c.
Proof.
  unfold is_label. destruct c as [s|]; simpl.
  - rewrite negb_true_iff, String.eqb_neq. split.
    + intros Hs. by exists s.
    + by intros (s' & [= <-] & Hs).
  - split; [done | by intros (s & Hs & _)].
Qed.

Lemma elem_of_values_distinct {A B} `{EqDecision B} (col : A → B)
    (rows : list A) (v : B) :
  v ∈ Sql.values_distinct col rows ↔ ∃ r, r ∈ rows ∧ col r = v.
Proof.
  unfold Sql.values_distinct. rewrite elem_of_remove_dups, list_elem_of_fmap.
  split; intros (r & H1 & H2); exists r; by split.
Qed.

(** C9, as amended: the [chromosomes()] of the denormalized form drops the
    NULL and empty chromosome values, and always returns the other distinct
    values as a sorted list. The [chromosomes()] of the normalized form keeps
    every distinct value, NULL included (there is one when a row has a NULL
    chromosome); its [sorted] returns the sorted values when none of them is
    NULL or when there is at most one distinct value (so also when NULL is
    the only one), and raises [TypeError] when NULL is one of two or more
    distinct values. *)
Theorem chromosomes_null_handling :
  (∀ self : View.MappingViewQuerySet,
     ∃ l, View.chromosomes self = Py.Ok l
          ∧ Sorted not_after l
          ∧ (∀ c, c ∈ l ↔
                  is_label c ∧ ∃ r, r ∈ View.rows self ∧ View.chromosome r = c))
  ∧ (∀ self : Norm.MappingQuerySet,
       let distinct :=
         Sql.values_distinct Norm.transcript__gene__chromosome (Norm.rows self) in
       (None ∈ distinct ↔
          ∃ r, r ∈ Norm.rows self ∧ Norm.transcript__gene__chromosome r = None)
       ∧ (None ∉ distinct ∨ length distinct ≤ 1 →
          ∃ l, Norm.chromosomes self = Py.Ok l
               ∧ l ≡ₚ distinct ∧ Sorted not_after l)
       ∧ (None ∈ distinct → 2 ≤ length distinct →
          Norm.chromosomes self = Py.Raise Py.TypeError)).
Proof.
  split.
  - intros self. unfold View.chromosomes.
    destruct (sorted_returns
                (filter (λ c, View.truthy c = true)
                   (Sql.values_distinct View.chromosome (View.rows self))))
      as (l & Hl & Hperm & Hsorted).
    { left. rewrite list_elem_of_filter. intros [? _]. done. }
    exists l. split_and!; [done | done |].
    intros c. rewrite Hperm, list_elem_of_filter, truthy_label.
    by rewrite elem_of_values_distinct.
  - intros self distinct. split_and!.
    + apply elem_of_values_distinct.
    + apply sorted_returns.
    + apply sorted_raises.
Qed.

Lemma chromosomes_null_handling_witness :
  (∃ l, Norm.chromosomes
          (Norm.mkQuerySet [mapping_row 1 None (Some "X"%string);
                            mapping_row 2 None (Some "10"%string)] None)
        = Py.Ok l
        ∧ l ≡ₚ [Some "X"%string; Some "10"%string] ∧ Sorted not_after l)
  ∧ Norm.chromosomes
      (Norm.mkQuerySet [mapping_row 1 None (Some "X"%string);
                        mapping_row 2 None None] None)
    = Py.Raise Py.TypeError.
Proof.
  destruct chromosomes_null_handling as [_ Hnorm]. split.
  - apply (Hnorm (Norm.mkQuerySet [mapping_row 1 None (Some "X"%string);
                                    mapping_row 2 None (Some "10"%string)] None)).
    left. vm_compute. intros Hin.
    repeat (apply elem_of_cons in Hin as [Hin|Hin]; [discriminate Hin|]).
    by apply elem_of_nil in Hin.
  - apply (Hnorm (Norm.mkQuerySet [mapping_row 1 None (Some "X"%string);
                                    mapping_row 2 None None] None)).
    + vm_compute. apply list_elem_of_In. simpl. auto.
    + vm_compute. lia.
Defined.

(** C9 as stated fails: when NULL is the only distinct chromosome value,
    the [sorted] of the normalized form has nothing to compare and the call
    returns normally. *)
Lemma chromosomes_only_null :
  let self := Norm.mkQuerySet [mapping_row 1 None None; mapping_row 2 None None] None in
  None ∈ Sql.values_distinct Norm.transcript__gene__chromosome (Norm.rows self)
  ∧ Norm.chromosomes self = Py.Ok [None].
Proof. split; [vm_compute; apply list_elem_of_In; simpl; auto | reflexivity]. Qed.

(** ** Memoization of the counts *)

Lemma view_grouped_counts_stored (nulls_high : bool)
    (self : View.MappingViewQuerySet) :
  View._counts (View.grouped_counts nulls_high self).2
  = Some (default (Sql.mkLazy None) (View._counts self)).
Proof. destruct self as [rows [q|]]; done. Qed.

Lemma view_grouped_counts_rows (nulls_high : bool)
    (self : View.MappingViewQuerySet) :
  View.rows (View.grouped_counts nulls_high self).2 = View.rows self.
Proof. destruct self as [rows [q|]]; done. Qed.

Lemma view_grouped_counts_again (nulls_high : bool)
    (self : View.MappingViewQuerySet) :
  View.grouped_counts nulls_high (View.grouped_counts nulls_high self).2
  = View.grouped_counts nulls_high self.
Proof. destruct self as [rows [q|]]; done. Qed.

Lemma norm_grouped_counts_stored (nulls_high : bool) (db : Norm.Database)
    (self : Norm.MappingQuerySet) :
  Norm._counts (Norm.grouped_counts nulls_high db self).2
  = Some (default (Sql.mkLazy None) (Norm._counts self)).
Proof. destruct self as [rows [q|]]; done. Qed.

Lemma norm_grouped_counts_rows (nulls_high : bool) (db : Norm.Database)
    (self : Norm.MappingQuerySet) :
  Norm.rows (Norm.grouped_counts nulls_high db self).2 = Norm.rows self.
Proof. destruct self as [rows [q|]]; done. Qed.

Lemma norm_grouped_counts_again (nulls_high : bool) (db : Norm.Database)
    (self : Norm.MappingQuerySet) :
  Norm.grouped_counts nulls_high db (Norm.grouped_counts nulls_high db self).2
  = Norm.grouped_counts nulls_high db self.
Proof. destruct self as [rows [q|]]; done. Qed.

Lemma view_grouped_count_unfold (nulls_high : bool)
    (self : View.MappingViewQuerySet) :
  View.grouped_count nulls_high self
  = (length (View.grouped_counts nulls_high self).1,
     View.mkQuerySet (View.rows self)
       (Some (Sql.mkLazy (Some (View.grouped_counts nulls_high self).1)))).
Proof.
  unfold View.grouped_count.
  pose proof (view_grouped_counts_rows nulls_high self) as Hrows.
  destruct (View.grouped_counts _ _) as [counts self']. simpl in *.
  by rewrite Hrows.
Qed.

Lemma norm_grouped_count_unfold (nulls_high : bool) (db : Norm.Database)
    (self : Norm.MappingQuerySet) :
  Norm.grouped_count nulls_high db self
  = (length (Norm.grouped_counts nulls_high db self).1,
     Norm.mkQuerySet (Norm.rows self)
       (Some (Sql.mkLazy (Some (Norm.grouped_counts nulls_high db self).1)))).
Proof.
  unfold Norm.grouped_count.
  pose proof (norm_grouped_counts_rows nulls_high db self) as Hrows.
  destruct (Norm.grouped_counts _ _ _) as [counts self']. simpl in *.
  by rewrite Hrows.
Qed.

(** [grouped_slice] in terms of the counts and the state that
    [grouped_counts] returns. *)
Lemma view_grouped_slice_unfold (nulls_high : bool)
    (self : View.MappingViewQuerySet) (offset limit : nat) :
  View.grouped_slice nulls_high self offset limit
  = let counts := (View.grouped_counts nulls_high self).1 in
    (foldl (λ d result, Py.append_or_create d (View.grouping_id result) result) []
       (Py.slice (qs_offset counts offset)
          (qs_offset counts offset + qs_limit counts offset limit)
          (Sql.order_by (View.by_grouping_id_desc nulls_high) (View.rows self))),
     (View.grouped_counts nulls_high self).2).
Proof.
  unfold View.grouped_slice.
  pose proof (view_grouped_counts_rows nulls_high self) as Hrows.
  destruct (View.grouped_counts _ _) as [counts self']. simpl in *.
  by rewrite Hrows.
Qed.

Lemma norm_grouped_slice_unfold (nulls_high : bool) (db : Norm.Database)
    (self : Norm.MappingQuerySet) (offset limit : nat) :
  Norm.grouped_slice nulls_high db self offset limit
  = let counts := (Norm.grouped_counts nulls_high db self).1 in
    (st ← Py.for_each (Norm.loop_body db)
            (Norm.sub_qs nulls_high db self (qs_offset counts offset)
               (qs_limit counts offset limit))
            (Norm.mkLoopState [] ∅);
     mret (Norm.grouped_results st),
     (Norm.grouped_counts nulls_high db self).2).
Proof.
  unfold Norm.grouped_slice, Norm.sub_qs.
  pose proof (norm_grouped_counts_rows nulls_high db self) as Hrows.
  destruct (Norm.grouped_counts _ _ _) as [counts self']. simpl in *.
  by rewrite Hrows.
Qed.

(** C6 as stated fails: the counts are read from the table again. A
    [grouped_slice] on a fresh query object stores the counts query set and
    reads two slices of it, which leaves the query set without cache. When
    the table has changed by the next call (a row of a new group for the
    view, the history entries gone for the normalized form), the same
    object answers from counts computed anew: [grouped_count] is not the
    number of counts that the [grouped_slice] before it used. *)
Lemma counts_queried_again_after_slice :
  (let row1 := view_row 1 (Some 1%Z) (Some 1%Z) None None in
   let row2 := view_row 2 (Some 2%Z) (Some 2%Z) None None in
   let self := View.mkQuerySet [row1] None in
   let after := (View.grouped_slice true self 0 1).2 in
   let later := View.mkQuerySet [row1; row2] (View._counts after) in
   View._counts after = Some (Sql.mkLazy None)
   ∧ (View.grouped_counts true self).1 = [Sql.mkGroupCount (Some 1%Z) 1]
   ∧ (View.grouped_counts true later).1
     = [Sql.mkGroupCount (Some 2%Z) 1; Sql.mkGroupCount (Some 1%Z) 1]
   ∧ (View.grouped_count true later).1 = 2)
  ∧ (let self := Norm.mkQuerySet null_group_mappings None in
     let after := (Norm.grouped_slice true null_group_db self 0 1).2 in
     let later := Norm.mkQuerySet null_group_mappings (Norm._counts after) in
     Norm._counts after = Some (Sql.mkLazy None)
     ∧ (Norm.grouped_counts true null_group_db self).1
       = [Sql.mkGroupCount (Some 1%Z) 1; Sql.mkGroupCount None 0]
     ∧ (Norm.grouped_counts true (Norm.mkDatabase [] []) later).1
       = [Sql.mkGroupCount None 0]
     ∧ (Norm.grouped_count true (Norm.mkDatabase [] []) later).1 = 1).
Proof. split; split_and!; vm_compute; reflexivity. Qed.

(** C6, as amended. The counts query set is created once and memoized on
    the query object: the first call of [grouped_counts] (directly, or
    through [grouped_count] or [grouped_slice]) stores it in [_counts], and
    every later call finds it there; [grouped_slice] leaves it as it is.
    Once [grouped_count] has read it, the query set holds the counts in its
    cache, and from then on, whatever rows the table has by then,
    [grouped_counts] and [grouped_count] answer from these counts and
    [grouped_slice] computes its row range from them, none of them changing
    the object. While the rows are unchanged, [grouped_count] and
    [grouped_slice] called again on the object, in the state any of the
    calls left, return what they returned before. A [grouped_slice] on a
    fresh object leaves the query set without cache: the next call on the
    object reads the counts of the rows the table has by then. *)
Theorem grouped_counts_memoized :
  (∀ (nulls_high : bool) (self : View.MappingViewQuerySet) (offset limit : nat),
     let counts := (View.grouped_counts nulls_high self).1 in
     let stored := (View.grouped_counts nulls_high self).2 in
     let read := (View.grouped_count nulls_high self).2 in
     View._counts stored = Some (default (Sql.mkLazy None) (View._counts self))
     ∧ View.grouped_counts nulls_high stored = (counts, stored)
     ∧ (View.grouped_slice nulls_high self offset limit).2 = stored
     ∧ (View.grouped_slice nulls_high stored offset limit).2 = stored
     ∧ View._counts read = Some (Sql.mkLazy (Some counts))
     ∧ (∀ rows' : list View.MappingView,
          let later := View.mkQuerySet rows' (View._counts read) in
          View.grouped_counts nulls_high later = (counts, later)
          ∧ View.grouped_count nulls_high later = (length counts, later)
          ∧ View.grouped_slice nulls_high later offset limit
            = (foldl (λ d r, Py.append_or_create d (View.grouping_id r) r) []
                 (Py.slice (qs_offset counts offset)
                    (qs_offset counts offset + qs_limit counts offset limit)
                    (Sql.order_by (View.by_grouping_id_desc nulls_high) rows')),
               later))
     ∧ (View.grouped_count nulls_high stored).1
       = (View.grouped_count nulls_high self).1
     ∧ (View.grouped_count nulls_high read).1
       = (View.grouped_count nulls_high self).1
     ∧ (View.grouped_slice nulls_high stored offset limit).1
       = (View.grouped_slice nulls_high self offset limit).1
     ∧ (View.grouped_slice nulls_high read offset limit).1
       = (View.grouped_slice nulls_high self offset limit).1)
  ∧ (∀ (nulls_high : bool) (db : Norm.Database) (self : Norm.MappingQuerySet)
       (offset limit : nat),
     let counts := (Norm.grouped_counts nulls_high db self).1 in
     let stored := (Norm.grouped_counts nulls_high db self).2 in
     let read := (Norm.grouped_count nulls_high db self).2 in
     Norm._counts stored = Some (default (Sql.mkLazy None) (Norm._counts self))
     ∧ Norm.grouped_counts nulls_high db stored = (counts, stored)
     ∧ (Norm.grouped_slice nulls_high db self offset limit).2 = stored
     ∧ (Norm.grouped_slice nulls_high db stored offset limit).2 = stored
     ∧ Norm._counts read = Some (Sql.mkLazy (Some counts))
     ∧ (∀ (db' : Norm.Database) (rows' : list Norm.Mapping),
          let later := Norm.mkQuerySet rows' (Norm._counts read) in
          Norm.grouped_counts nulls_high db' later = (counts, later)
          ∧ Norm.grouped_count nulls_high db' later = (length counts, later)
          ∧ Norm.grouped_slice nulls_high db' later offset limit
            = (st ← Py.for_each (Norm.loop_body db')
                      (fst <$> Py.slice (qs_offset counts offset)
                                 (qs_offset counts offset
                                  + qs_limit counts offset limit)
                                 (Sql.order_by
                                    (Norm.by_grouping_id_asc nulls_high)
                                    (Norm.join_grouping_id db' rows')))
                      (Norm.mkLoopState [] ∅);
               mret (Norm.grouped_results st),
               later))
     ∧ (Norm.grouped_count nulls_high db stored).1
       = (Norm.grouped_count nulls_high db self).1
     ∧ (Norm.grouped_count nulls_high db read).1
       = (Norm.grouped_count nulls_high db self).1
     ∧ (Norm.grouped_slice nulls_high db stored offset limit).1
       = (Norm.grouped_slice nulls_high db self offset limit).1
     ∧ (Norm.grouped_slice nulls_high db read offset limit).1
       = (Norm.grouped_slice nulls_high db self offset limit).1)
  ∧ (∀ (nulls_high : bool) (rows rows' : list View.MappingView)
       (offset limit offset' limit' : nat),
     let after :=
       (View.grouped_slice nulls_high (View.mkQuerySet rows None)
          offset limit).2 in
     let later := View.mkQuerySet rows' (View._counts after) in
     (View.grouped_counts nulls_high later).1
     = (View.grouped_counts nulls_high (View.mkQuerySet rows' None)).1
     ∧ (View.grouped_slice nulls_high later offset' limit').1
       = (View.grouped_slice nulls_high (View.mkQuerySet rows' None)
            offset' limit').1)
  ∧ (∀ (nulls_high : bool) (db db' : Norm.Database)
       (rows rows' : list Norm.Mapping) (offset limit offset' limit' : nat),
     let after :=
       (Norm.grouped_slice nulls_high db (Norm.mkQuerySet rows None)
          offset limit).2 in
     let later := Norm.mkQuerySet rows' (Norm._counts after) in
     (Norm.grouped_counts nulls_high db' later).1
     = (Norm.grouped_counts nulls_high db' (Norm.mkQuerySet rows' None)).1
     ∧ (Norm.grouped_slice nulls_high db' later offset' limit').1
       = (Norm.grouped_slice nulls_high db' (Norm.mkQuerySet rows' None)
            offset' limit').1).
Proof.
  split; [|split; [|split]]; [| | done | done].
  - intros nulls_high [rows [[[cache|]]|]] offset limit; cbv zeta;
      (split_and!;
       [done | done | done | done | done | intros rows'; by split_and!
       | done..]).
  - intros nulls_high db [rows [[[cache|]]|]] offset limit; cbv zeta;
      (split_and!;
       [done | done | done | done | done | intros db' rows'; by split_and!
       | done..]).
Qed.

(** ** The ordered dictionary of lists *)

Section odict_facts.
Context {K V : Type} `{EqDecision K}.
Implicit Types (d : Py.odict K V) (k : K) (v : V).

Lemma append_or_create_nil k v : Py.append_or_create [] k v = [(k, [v])].
Proof. done. Qed.

Lemma append_or_create_cons_eq k vs d v :
  Py.append_or_create ((k, vs) :: d) k v = (k, vs ++ [v]) :: d.
Proof. unfold Py.append_or_create. simpl. by rewrite !decide_True. Qed.

Lemma append_or_create_cons_ne k' vs d k v :
  k' ≠ k →
  Py.append_or_create ((k', vs) :: d) k v = (k', vs) :: Py.append_or_create d k v.
Proof.
  intros Hne. unfold Py.append_or_create. simpl. rewrite decide_False by done.
  destruct (Py.getitem d k); simpl; by rewrite decide_False.
Qed.

Lemma total_len_cons k vs d :
  Py.total_len ((k, vs) :: d) = length vs + Py.total_len d.
Proof. done. Qed.

Lemma total_len_append_or_create d k v :
  Py.total_len (Py.append_or_create d k v) = S (Py.total_len d).
Proof.
  induction d as [|[k' vs] d IH]; [done|].
  destruct (decide (k' = k)) as [->|Hne].
  - rewrite append_or_create_cons_eq, !total_len_cons, length_app. simpl. lia.
  - rewrite append_or_create_cons_ne, !total_len_cons, IH by done. lia.
Qed.

Lemma values_of_append_or_create d k v k' :
  values_of (Py.append_or_create d k v) k'
  = values_of d k' ++ (if decide (k = k') then [v] else []).
Proof.
  induction d as [|[k0 vs] d IH].
  - unfold values_of. simpl. by destruct (decide (k = k')).
  - destruct (decide (k0 = k)) as [->|Hne].
    + rewrite append_or_create_cons_eq. unfold values_of. simpl.
      destruct (decide (k = k')); [done | by rewrite app_nil_r].
    + rewrite append_or_create_cons_ne by done.
      unfold values_of in *. simpl.
      destruct (decide (k0 = k')) as [->|Hne'].
      * rewrite decide_False by done. by rewrite app_nil_r.
      * apply IH.
Qed.

(** Every entry of the dictionary after the statement is an entry from
    before, or the entry of [k] with [v] added at its end. *)
Lemma elem_of_append_or_create d k v k' vs' :
  (k', vs') ∈ Py.append_or_create d k v →
  (k', vs') ∈ d
  ∨ (k' = k ∧ ∃ vs, vs' = vs ++ [v] ∧ ((k, vs) ∈ d ∨ vs = [])).
Proof.
  induction d as [|[k0 vs0] d IH]; intros Hin.
  - rewrite append_or_create_nil in Hin.
    apply list_elem_of_singleton in Hin as [= -> ->].
    right. split; [done|]. exists []. auto.
  - destruct (decide (k0 = k)) as [->|Hne].
    + rewrite append_or_create_cons_eq in Hin.
      apply elem_of_cons in Hin as [[= -> ->]|Hin].
      * right. split; [done|]. exists vs0. split; [done|]. left. by left.
      * left. by right.
    + rewrite append_or_create_cons_ne in Hin by done.
      apply elem_of_cons in Hin as [[= -> ->]|Hin].
      * left. by left.
      * destruct (IH Hin) as [?|(-> & vs & -> & [?| ->])].
        -- left. by right.
        -- right. split; [done|]. exists vs. split; [done|]. left. by right.
        -- right. split; [done|]. exists []. auto.
Qed.

Lemma getitem_elem_of d k vs : Py.getitem d k = Py.Ok vs → (k, vs) ∈ d.
Proof.
  induction d as [|[k0 vs0] d IH]; [done|]. simpl.
  case_decide as Hk; [intros [= <-]; subst; by left | right; auto].
Qed.

Lemma keys_append_or_create d k v :
  Py.keys (Py.append_or_create d k v)
  = if decide (k ∈ Py.keys d) then Py.keys d else Py.keys d ++ [k].
Proof.
  induction d as [|[k0 vs0] d IH].
  - rewrite append_or_create_nil, decide_False; [done | by intros ?%elem_of_nil].
  - destruct (decide (k0 = k)) as [->|Hne].
    + rewrite append_or_create_cons_eq. unfold Py.keys. rewrite !fmap_cons.
      rewrite decide_True; [done | by left].
    + rewrite append_or_create_cons_ne by done.
      unfold Py.keys in *. rewrite !fmap_cons, IH.
      destruct (decide (k ∈ fst <$> d)) as [Hin|Hnin].
      * rewrite decide_True; [done | by right].
      * rewrite decide_False; [done|].
        intros [?|?]%elem_of_cons; simpl in *; congruence.
Qed.

Lemma NoDup_keys_append_or_create d k v :
  NoDup (Py.keys d) → NoDup (Py.keys (Py.append_or_create d k v)).
Proof.
  intros Hnd. rewrite keys_append_or_create. case_decide as Hin; [done|].
  apply NoDup_app. split_and!; [done | | apply NoDup_singleton].
  intros x Hx Hx'. apply list_elem_of_singleton in Hx'. by subst.
Qed.

Lemma elem_of_getitem d k vs :
  NoDup (Py.keys d) → (k, vs) ∈ d → Py.getitem d k = Py.Ok vs.
Proof.
  induction d as [|[k0 vs0] d IH]; intros Hnd Hin.
  - by apply elem_of_nil in Hin.
  - unfold Py.keys in Hnd. simpl in Hnd. apply NoDup_cons in Hnd as [Hk0 Hnd].
    simpl. apply elem_of_cons in Hin as [Heq|Hin].
    + injection Heq as -> ->. by rewrite decide_True.
    + rewrite decide_False; [by apply IH|].
      intros ->. apply Hk0. apply list_elem_of_fmap. by exists (k, vs).
Qed.

End odict_facts.

Section group_facts.
Context {K V : Type} `{EqDecision K} (key : V → K).
Implicit Types (d : Py.odict K V) (l : list V).

Lemma values_of_group d l k :
  values_of (foldl (λ d r, Py.append_or_create d (key r) r) d l) k
  = values_of d k ++ filter (λ r, key r = k) l.
Proof.
  revert d. induction l as [|r l IH]; intros d; simpl.
  - by rewrite app_nil_r.
  - rewrite IH, values_of_append_or_create, filter_cons.
    case_decide; by rewrite <- app_assoc.
Qed.
End group_facts.

(** ** [ORDER BY] and the row range *)

Section order_by_facts.
Context {A : Type} (leb : A → A → bool).

Lemma insert_row_perm (x : A) (l : list A) : Sql.insert_row leb x l ≡ₚ x :: l.
Proof.
  induction l as [|y l IH]; simpl; [done|].
  destruct (leb x y); [done|]. rewrite IH. apply perm_swap.
Qed.

Lemma order_by_perm (l : list A) : Sql.order_by leb l ≡ₚ l.
Proof.
  induction l as [|x l IH]; simpl; [done|].
  by rewrite insert_row_perm, IH.
Qed.

End order_by_facts.

Lemma elem_of_slice {A} (lo hi : nat) (l : list A) (x : A) :
  x ∈ Py.slice lo hi l → x ∈ l.
Proof.
  unfold Py.slice. intros Hx.
  apply (subseteq_drop lo l). by apply (subseteq_take (hi - lo)).
Qed.

(** ** [latest] *)

Lemma latest_from_elem {A} (field : A → Z) (best : A) (l : list A) :
  Sql.latest_from field best l ∈ best :: l.
Proof.
  revert best. induction l as [|x l IH]; intros best; simpl; [by left|].
  specialize (IH (if (field best <? field x)%Z then x else best)).
  apply elem_of_cons in IH as [->|IH].
  - destruct (field best <? field x)%Z; [right; by left | by left].
  - right. by right.
Qed.

Lemma latest_elem {A} (field : A → Z) (l : list A) (x : A) :
  Sql.latest field l = Py.Ok x → x ∈ l.
Proof.
  destruct l as [|y l]; [done|]. simpl. intros [= <-]. apply latest_from_elem.
Qed.

Lemma latest_ok {A} (field : A → Z) (l : list A) (x : A) :
  x ∈ l → ∃ y, Sql.latest field l = Py.Ok y.
Proof. destruct l as [|y l]; [by intros ?%elem_of_nil | by eexists]. Qed.

(** ** The loop of the normalized [grouped_slice] *)

Lemma with_release_in_table (db : Norm.Database) (hs : list Norm.MappingHistory)
    (h : Norm.MappingHistory) (r : Norm.ReleaseMappingHistory) :
  (h, r) ∈ Norm.with_release db hs → r ∈ Norm.release_mapping_history_table db.
Proof.
  unfold Norm.with_release. rewrite list_elem_of_omap.
  intros (h' & _ & Hr).
  destruct (head _) as [r'|] eqn:Hhead; simpl in Hr; [|done].
  injection Hr as -> ->. apply head_Some_elem_of in Hhead.
  by apply list_elem_of_filter in Hhead as [_ ?].
Qed.

(** The release of the latest history entry is a release of its own
    species, so the latest release of that species exists. *)
Lemma species_latest_ok (db : Norm.Database) (m : Norm.Mapping)
    (h : Norm.MappingHistory) (rmh : Norm.ReleaseMappingHistory) :
  Norm.latest_history db m = Py.Ok (h, rmh) →
  ∃ latest, Norm.species_latest db (Norm.uniprot_taxid rmh) = Py.Ok latest.
Proof.
  intros Hl. apply latest_elem, with_release_in_table in Hl.
  apply (latest_ok _ _ rmh). by apply list_elem_of_filter.
Qed.

Lemma defaultdict_get_seen (added : gmap (option Z) (gset Z)) (k : option Z) :
  (Norm.defaultdict_get added k).1 = added_set added k.
Proof. unfold Norm.defaultdict_get, added_set. by destruct (added !! k). Qed.

Lemma defaultdict_get_added (added : gmap (option Z) (gset Z)) (k k' : option Z) :
  added_set (Norm.defaultdict_get added k).2 k' = added_set added k'.
Proof.
  unfold Norm.defaultdict_get, added_set.
  destruct (added !! k) eqn:Hk; [done|]. simpl.
  destruct (decide (k = k')) as [<-|Hne].
  - by rewrite lookup_insert_eq, Hk.
  - by rewrite lookup_insert_ne.
Qed.

Lemma added_set_insert (added : gmap (option Z) (gset Z)) (k k' : option Z)
    (s : gset Z) :
  added_set (<[k := s]> added) k' = if decide (k = k') then s else added_set added k'.
Proof.
  unfold added_set. case_decide as Hk.
  - subst. by rewrite lookup_insert_eq.
  - by rewrite lookup_insert_ne.
Qed.

(** What one turn of the loop does when it does not raise: it skips a row
    whose mapping id is recorded, it skips a stale row, or it appends the
    row under the grouping id of its latest history entry and records its
    mapping id. *)
Lemma loop_body_ok (db : Norm.Database) (st st' : Norm.LoopState)
    (result : Norm.Mapping) :
  Norm.loop_body db st result = Py.Ok st' →
  ∃ h rmh,
    Norm.latest_history db result = Py.Ok (h, rmh)
    ∧ (((Norm.mapping_id result
           ∈ added_set (Norm.grouped_results_added st) (Norm.grouping_id h)
         ∨ stale db result)
        ∧ Norm.grouped_results st' = Norm.grouped_results st
        ∧ ∀ k, added_set (Norm.grouped_results_added st') k
               = added_set (Norm.grouped_results_added st) k)
       ∨ ((Norm.mapping_id result
             ∉ added_set (Norm.grouped_results_added st) (Norm.grouping_id h))
          ∧ ¬ stale db result
          ∧ Norm.grouped_results st'
            = Py.append_or_create (Norm.grouped_results st)
                (Norm.grouping_id h) result
          ∧ ∀ k, added_set (Norm.grouped_results_added st') k
                 = (if decide (Norm.grouping_id h = k)
                    then {[Norm.mapping_id result]}
                         ∪ added_set (Norm.grouped_results_added st) k
                    else added_set (Norm.grouped_results_added st) k))).
Proof.
  unfold Norm.loop_body.
  destruct (Norm.latest_history db result) as [[h rmh]|e] eqn:Hl; [|done].
  simpl. intros Hbody. exists h, rmh. split; [done|].
  pose proof (defaultdict_get_seen (Norm.grouped_results_added st)
                (Norm.grouping_id h)) as Hseen.
  pose proof (defaultdict_get_added (Norm.grouped_results_added st)
                (Norm.grouping_id h)) as Hadded.
  destruct (Norm.defaultdict_get _ _) as [seen added]. simpl in *. subst seen.
  case_decide as Hin.
  { injection Hbody as <-. left. split_and!; [by left | done | done]. }
  destruct (Norm.species_latest db (Norm.uniprot_taxid rmh)) as [latest|e] eqn:Hs;
    [|done].
  simpl in Hbody. case_decide as Hne.
  { injection Hbody as <-. left. split_and!; [right | done | done].
    by exists h, rmh, latest. }
  injection Hbody as <-. right. simpl. split_and!; [done | | done |].
  - intros (h' & rmh' & latest' & Hl' & Hs' & Hne').
    rewrite Hl in Hl'. injection Hl' as <- <-.
    rewrite Hs in Hs'. by injection Hs' as <-.
  - intros k. rewrite added_set_insert. case_decide; [by subst | by rewrite Hadded].
Qed.

Lemma loop_body_total (db : Norm.Database) (st : Norm.LoopState)
    (result : Norm.Mapping) :
  Py.is_ok (Norm.latest_history db result) = true →
  ∃ st', Norm.loop_body db st result = Py.Ok st'.
Proof.
  unfold Norm.loop_body.
  destruct (Norm.latest_history db result) as [[h rmh]|e] eqn:Hl; [|done].
  intros _. simpl. destruct (Norm.defaultdict_get _ _) as [seen added].
  case_decide; [by eexists|].
  destruct (species_latest_ok _ _ _ _ Hl) as [latest ->]. simpl.
  case_decide; by eexists.
Qed.

(** A stale row passes through a turn of the loop without an exception and
    without a change of [grouped_results]. *)
Lemma loop_body_stale (db : Norm.Database) (st : Norm.LoopState)
    (result : Norm.Mapping) :
  stale db result →
  ∃ st', Norm.loop_body db st result = Py.Ok st'
         ∧ Norm.grouped_results st' = Norm.grouped_results st.
Proof.
  intros (h & rmh & latest & Hl & Hs & Hne).
  destruct (loop_body_total db st result) as [st' Hst']; [by rewrite Hl|].
  exists st'. split; [done|].
  destruct (loop_body_ok _ _ _ _ Hst')
    as (h' & rmh' & Hl' & [(_ & ? & _)|(_ & Hcurrent & _)]); [done|].
  destruct Hcurrent. by exists h, rmh, latest.
Qed.

Lemma for_each_inv {S X} (P : S → Prop) (body : S → X → Py.result S)
    (xs : list X) (st st' : S) :
  (∀ st x st', P st → body st x = Py.Ok st' → P st') →
  P st → Py.for_each body xs st = Py.Ok st' → P st'.
Proof.
  intros Hbody. revert st. induction xs as [|x xs IH]; intros st HP; simpl.
  - by intros [= <-].
  - destruct (body st x) as [st1|e] eqn:Hx; simpl; [|done]. eauto.
Qed.

Lemma for_each_total {S X} (body : S → X → Py.result S) (xs : list X) (st : S) :
  (∀ st x, x ∈ xs → ∃ st', body st x = Py.Ok st') →
  ∃ st', Py.for_each body xs st = Py.Ok st'.
Proof.
  revert st. induction xs as [|x xs IH]; intros st Hbody; simpl; [by eexists|].
  destruct (Hbody st x) as [st1 ->]; [by left|]. simpl.
  apply IH. intros st2 y Hy. apply Hbody. by right.
Qed.

Lemma loop_inv_init (db : Norm.Database) : loop_inv db (Norm.mkLoopState [] ∅).
Proof. intros k vs Hin. by apply elem_of_nil in Hin. Qed.

Lemma loop_body_inv (db : Norm.Database) (st : Norm.LoopState)
    (result : Norm.Mapping) (st' : Norm.LoopState) :
  loop_inv db st → Norm.loop_body db st result = Py.Ok st' → loop_inv db st'.
Proof.
  intros Hinv Hbody.
  destruct (loop_body_ok _ _ _ _ Hbody)
    as (h & rmh & Hl & [(_ & Hres & Hadd)|(Hfresh & Hcurrent & Hres & Hadd)]).
  - intros k vs Hin. rewrite Hres in Hin. destruct (Hinv k vs Hin) as [Hnd Hrows].
    split; [done|]. intros r Hr. rewrite Hadd. by apply Hrows.
  - assert (Hgrow : ∀ k x, x ∈ added_set (Norm.grouped_results_added st) k →
                           x ∈ added_set (Norm.grouped_results_added st') k).
    { intros k x Hx. rewrite Hadd. case_decide; [|done].
      apply elem_of_union. by right. }
    assert (Hnew : Norm.mapping_id result
                   ∈ added_set (Norm.grouped_results_added st') (Norm.grouping_id h)).
    { rewrite Hadd, decide_True by done. apply elem_of_union. left.
      by apply elem_of_singleton. }
    intros k vs' Hin. rewrite Hres in Hin.
    apply elem_of_append_or_create in Hin as [Hin|(-> & vs & -> & Hvs)].
    + destruct (Hinv k vs' Hin) as [Hnd Hrows]. split; [done|].
      intros r Hr. destruct (Hrows r Hr). auto.
    + assert (Hold : NoDup (Norm.mapping_id <$> vs)
                     ∧ ∀ r, r ∈ vs →
                         Norm.mapping_id r
                           ∈ added_set (Norm.grouped_results_added st)
                               (Norm.grouping_id h)
                         ∧ ¬ stale db r).
      { destruct Hvs as [Hin| ->]; [by apply Hinv|].
        split; [constructor | by intros r ?%elem_of_nil]. }
      destruct Hold as [Hnd Hrows]. split.
      * rewrite fmap_app. apply NoDup_app. split_and!; [done | | by apply NoDup_singleton].
        intros x Hx Hx'. apply list_elem_of_singleton in Hx'. subst x.
        apply list_elem_of_fmap in Hx as (r & Heq & Hr).
        destruct (Hrows r Hr) as [Hseen _]. rewrite <- Heq in Hseen. done.
      * intros r Hr. apply elem_of_app in Hr as [Hr|Hr].
        -- destruct (Hrows r Hr). auto.
        -- apply list_elem_of_singleton in Hr. by subst r.
Qed.

Lemma norm_grouped_slice_inv (nulls_high : bool) (db : Norm.Database)
    (self : Norm.MappingQuerySet) (offset limit : nat)
    (m : Py.odict (option Z) Norm.Mapping) :
  (Norm.grouped_slice nulls_high db self offset limit).1 = Py.Ok m →
  ∃ st, Py.for_each (Norm.loop_body db)
          (norm_fetched nulls_high db self offset limit) (Norm.mkLoopState [] ∅)
        = Py.Ok st
        ∧ m = Norm.grouped_results st ∧ loop_inv db st.
Proof.
  rewrite norm_grouped_slice_unfold. simpl. fold (norm_fetched nulls_high db self offset limit).
  destruct (Py.for_each _ _ _) as [st|e] eqn:Hrun; simpl; [|done].
  intros [= <-]. exists st. split_and!; [done | done |].
  eapply for_each_inv; [| apply loop_inv_init | exact Hrun].
  intros st0 x st1. apply loop_body_inv.
Qed.

Lemma elem_of_join_grouping_id (db : Norm.Database) (ms : list Norm.Mapping)
    (m : Norm.Mapping) (g : option Z) :
  (m, g) ∈ Norm.join_grouping_id db ms → m ∈ ms.
Proof.
  unfold Norm.join_grouping_id. rewrite list_elem_of_In, in_concat.
  intros (l & Hl & Hm). apply list_elem_of_In, list_elem_of_fmap in Hl as (m' & -> & Hm').
  apply list_elem_of_In in Hm. destruct (Norm.mapping_history db m') as [|h hs].
  - apply list_elem_of_singleton in Hm. by injection Hm as -> _.
  - apply list_elem_of_fmap in Hm as (h' & [= -> _] & _). done.
Qed.

Lemma norm_fetched_rows (nulls_high : bool) (db : Norm.Database)
    (self : Norm.MappingQuerySet) (offset limit : nat) (m : Norm.Mapping) :
  m ∈ norm_fetched nulls_high db self offset limit → m ∈ Norm.rows self.
Proof.
  unfold norm_fetched, Norm.sub_qs. simpl. intros Hm.
  apply list_elem_of_fmap in Hm as ([m' g] & -> & Hm).
  apply elem_of_slice in Hm. rewrite order_by_perm in Hm.
  by apply elem_of_join_grouping_id in Hm.
Qed.

Lemma for_each_stale (db : Norm.Database) (xs : list Norm.Mapping)
    (st : Norm.LoopState) :
  (∀ r, r ∈ xs → stale db r) →
  ∃ st', Py.for_each (Norm.loop_body db) xs st = Py.Ok st'
         ∧ Norm.grouped_results st' = Norm.grouped_results st.
Proof.
  revert st. induction xs as [|x xs IH]; intros st Hxs; simpl; [by eexists|].
  destruct (loop_body_stale db st x) as (st1 & -> & Hres); [apply Hxs; by left|].
  simpl. destruct (IH st1) as (st' & Hrun & Hres').
  { intros r Hr. apply Hxs. by right. }
  exists st'. split; [done | congruence].
Qed.

(** C5: in the normalized [grouped_slice], a turn of the loop on a stale row
    (a row whose most recently mapped history entry references a release
    that is not the latest release of its species) raises nothing and leaves
    [grouped_results] as it was; no list of a returned mapping holds a stale
    row; the call returns a mapping whenever every row of the query set has
    a history entry to resolve, stale or not; and a query set of stale rows
    only gives the empty mapping. *)
Theorem stale_rows_excluded :
  (∀ (db : Norm.Database) (st : Norm.LoopState) (result : Norm.Mapping),
     stale db result →
     ∃ st', Norm.loop_body db st result = Py.Ok st'
            ∧ Norm.grouped_results st' = Norm.grouped_results st)
  ∧ (∀ (nulls_high : bool) (db : Norm.Database) (self : Norm.MappingQuerySet)
       (offset limit : nat) (m : Py.odict (option Z) Norm.Mapping),
       (Norm.grouped_slice nulls_high db self offset limit).1 = Py.Ok m →
       ∀ k vs r, (k, vs) ∈ m → r ∈ vs → ¬ stale db r)
  ∧ (∀ (nulls_high : bool) (db : Norm.Database) (self : Norm.MappingQuerySet)
       (offset limit : nat),
       (∀ r, r ∈ Norm.rows self → Py.is_ok (Norm.latest_history db r) = true) →
       ∃ m, (Norm.grouped_slice nulls_high db self offset limit).1 = Py.Ok m)
  ∧ (∀ (nulls_high : bool) (db : Norm.Database) (self : Norm.MappingQuerySet)
       (offset limit : nat),
       (∀ r, r ∈ Norm.rows self → stale db r) →
       (Norm.grouped_slice nulls_high db self offset limit).1 = Py.Ok []).
Proof.
  split_and!.
  - apply loop_body_stale.
  - intros nulls_high db self offset limit m Hm k vs r Hin Hr.
    destruct (norm_grouped_slice_inv _ _ _ _ _ _ Hm) as (st & _ & -> & Hinv).
    destruct (Hinv k vs Hin) as [_ Hrows]. by destruct (Hrows r Hr).
  - intros nulls_high db self offset limit Hrows.
    rewrite norm_grouped_slice_unfold. simpl.
    fold (norm_fetched nulls_high db self offset limit).
    destruct (for_each_total (Norm.loop_body db)
                (norm_fetched nulls_high db self offset limit)
                (Norm.mkLoopState [] ∅)) as [st ->].
    + intros st r Hr. apply loop_body_total, Hrows.
      by apply norm_fetched_rows in Hr.
    + by eexists.
  - intros nulls_high db self offset limit Hrows.
    rewrite norm_grouped_slice_unfold. simpl.
    fold (norm_fetched nulls_high db self offset limit).
    destruct (for_each_stale db (norm_fetched nulls_high db self offset limit)
                (Norm.mkLoopState [] ∅)) as (st & -> & Hres).
    + intros r Hr. apply Hrows. by apply norm_fetched_rows in Hr.
    + simpl. by rewrite Hres.
Qed.

Lemma example_stale : stale example_db stale_mapping.
Proof.
  exists (Norm.mkMappingHistory 1 1 1 (Some 1%Z)),
    (Norm.mkReleaseMappingHistory 1 10 (Some 9606%Z)),
    (Norm.mkReleaseMappingHistory 2 20 (Some 9606%Z)).
  split_and!; [reflexivity | reflexivity | discriminate].
Defined.

Lemma stale_rows_excluded_witness :
  (∃ st', Norm.loop_body example_db (Norm.mkLoopState [] ∅) stale_mapping
          = Py.Ok st'
          ∧ Norm.grouped_results st' = [])
  ∧ ¬ stale example_db current_mapping
  ∧ (∃ m, (Norm.grouped_slice true example_db
             (Norm.mkQuerySet [stale_mapping; current_mapping] None) 0 1).1
          = Py.Ok m)
  ∧ (Norm.grouped_slice true example_db
       (Norm.mkQuerySet [stale_mapping] None) 0 1).1 = Py.Ok [].
Proof.
  destruct stale_rows_excluded as (Hstep & Hrun & Htotal & Hempty).
  split_and!.
  - apply (Hstep example_db (Norm.mkLoopState [] ∅) stale_mapping example_stale).
  - apply (Hrun true example_db
             (Norm.mkQuerySet [stale_mapping; current_mapping] None) 0 1
             [(Some 1%Z, [current_mapping])] eq_refl
             (Some 1%Z) [current_mapping] current_mapping);
      by left.
  - apply Htotal. intros r Hr.
    apply elem_of_cons in Hr as [->|Hr]; [reflexivity|].
    apply list_elem_of_singleton in Hr as ->. reflexivity.
  - apply Hempty. intros r Hr.
    apply list_elem_of_singleton in Hr as ->. apply example_stale.
Defined.

Lemma loop_recorded_init (db : Norm.Database) :
  loop_recorded db (Norm.mkLoopState [] ∅).
Proof.
  split_and!.
  - constructor.
  - intros k x Hx. unfold added_set in Hx. simpl in Hx.
    rewrite lookup_empty in Hx. by apply elem_of_empty in Hx.
  - intros k r Hr. by apply elem_of_nil in Hr.
Qed.

Lemma loop_body_recorded (db : Norm.Database) (st : Norm.LoopState)
    (result : Norm.Mapping) (st' : Norm.LoopState) :
  loop_recorded db st → Norm.loop_body db st result = Py.Ok st' →
  loop_recorded db st'.
Proof.
  intros (Hkeys & Hrec & Hkey) Hbody.
  destruct (loop_body_ok _ _ _ _ Hbody)
    as (h & rmh & Hl & [(_ & Hres & Hadd)|(Hfresh & Hcurrent & Hres & Hadd)]).
  - split_and!.
    + by rewrite Hres.
    + intros k x. rewrite Hadd, Hres. apply Hrec.
    + intros k r. rewrite Hres. apply Hkey.
  - split_and!.
    + rewrite Hres. by apply NoDup_keys_append_or_create.
    + intros k x. rewrite Hadd, Hres, values_of_append_or_create.
      case_decide as Hk.
      * intros [Hx|Hx]%elem_of_union.
        -- apply elem_of_singleton in Hx as ->. exists result.
           split; [|done]. apply elem_of_app. right. by left.
        -- destruct (Hrec k x Hx) as (r & Hr & Hid). exists r.
           split; [|done]. apply elem_of_app. by left.
      * rewrite app_nil_r. apply Hrec.
    + intros k r. rewrite Hres, values_of_append_or_create.
      case_decide as Hk.
      * intros [Hr|Hr]%elem_of_app; [by apply Hkey|].
        apply list_elem_of_singleton in Hr as ->. by exists h, rmh.
      * rewrite app_nil_r. apply Hkey.
Qed.

(** Every row that is not stale has its mapping id recorded, under the
    grouping id of its latest history entry, once its turn has passed. *)
Lemma for_each_records (db : Norm.Database) (xs : list Norm.Mapping)
    (st st' : Norm.LoopState) :
  Py.for_each (Norm.loop_body db) xs st = Py.Ok st' →
  (∀ k x, x ∈ added_set (Norm.grouped_results_added st) k →
          x ∈ added_set (Norm.grouped_results_added st') k)
  ∧ (∀ r, r ∈ xs → ¬ stale db r →
       ∃ h rmh, Norm.latest_history db r = Py.Ok (h, rmh)
                ∧ Norm.mapping_id r
                  ∈ added_set (Norm.grouped_results_added st') (Norm.grouping_id h)).
Proof.
  revert st. induction xs as [|x xs IH]; intros st; simpl.
  - intros [= <-]. split; [done | by intros r ?%elem_of_nil].
  - destruct (Norm.loop_body db st x) as [st1|e] eqn:Hbody; simpl; [|done].
    intros Hrun. destruct (IH st1 Hrun) as [Hmono Hrows].
    destruct (loop_body_ok _ _ _ _ Hbody) as (h & rmh & Hl & Hcases).
    assert (Hstep : ∀ k y, y ∈ added_set (Norm.grouped_results_added st) k →
                           y ∈ added_set (Norm.grouped_results_added st1) k).
    { intros k y Hy.
      destruct Hcases as [(_ & _ & Hadd)|(_ & _ & _ & Hadd)]; rewrite Hadd; [done|].
      case_decide; [|done]. apply elem_of_union. by right. }
    split; [auto|].
    intros r [->|Hr]%elem_of_cons Hcurrent; [|auto].
    exists h, rmh. split; [done|]. apply Hmono.
    destruct Hcases as [([Hseen|Hstale] & _ & Hadd)|(_ & _ & _ & Hadd)]; rewrite Hadd.
    + done.
    + done.
    + rewrite decide_True by done. apply elem_of_union. left.
      by apply elem_of_singleton.
Qed.

Lemma norm_grouped_slice_recorded (nulls_high : bool) (db : Norm.Database)
    (self : Norm.MappingQuerySet) (offset limit : nat) (st : Norm.LoopState) :
  Py.for_each (Norm.loop_body db)
    (norm_fetched nulls_high db self offset limit) (Norm.mkLoopState [] ∅)
  = Py.Ok st →
  loop_recorded db st.
Proof.
  intros Hrun. eapply for_each_inv; [| apply loop_recorded_init | exact Hrun].
  intros st0 x st1. apply loop_body_recorded.
Qed.

(** C3, as amended. Normalized form: the keys of the mapping that
    [grouped_slice] returns are distinct, no list of it holds two rows with
    the same mapping id, and every fetched row that is not stale is
    represented, by a row with its mapping id, in the list under the
    grouping id of its latest history entry. Denormalized form: there is no
    deduplication; the list under a key is the list of all fetched rows with
    that grouping id, in the order fetched. *)
Theorem deduplication_by_mapping_id :
  (∀ (nulls_high : bool) (db : Norm.Database) (self : Norm.MappingQuerySet)
     (offset limit : nat) (m : Py.odict (option Z) Norm.Mapping),
     (Norm.grouped_slice nulls_high db self offset limit).1 = Py.Ok m →
     NoDup (Py.keys m)
     ∧ (∀ k vs, (k, vs) ∈ m → NoDup (Norm.mapping_id <$> vs))
     ∧ (∀ r, r ∈ norm_fetched nulls_high db self offset limit → ¬ stale db r →
          ∃ h rmh vs r',
            Norm.latest_history db r = Py.Ok (h, rmh)
            ∧ (Norm.grouping_id h, vs) ∈ m
            ∧ r' ∈ vs ∧ Norm.mapping_id r' = Norm.mapping_id r))
  ∧ (∀ (nulls_high : bool) (self : View.MappingViewQuerySet)
       (offset limit : nat) (k : option Z),
       values_of (View.grouped_slice nulls_high self offset limit).1 k
       = filter (λ r, View.grouping_id r = k)
           (view_fetched nulls_high self offset limit)).
Proof.
  split.
  - intros nulls_high db self offset limit m Hm.
    destruct (norm_grouped_slice_inv _ _ _ _ _ _ Hm) as (st & Hrun & -> & Hinv).
    destruct (norm_grouped_slice_recorded _ _ _ _ _ _ Hrun) as (Hkeys & Hrec & _).
    split_and!; [done | |].
    + intros k vs Hin. by destruct (Hinv k vs Hin).
    + intros r Hr Hcurrent.
      destruct (for_each_records _ _ _ _ Hrun) as [_ Hrows].
      destruct (Hrows r Hr Hcurrent) as (h & rmh & Hl & Hid).
      destruct (Hrec _ _ Hid) as (r' & Hr' & Heq).
      exists h, rmh, (values_of (Norm.grouped_results st) (Norm.grouping_id h)), r'.
      split_and!; [done | | done | done].
      unfold values_of in *.
      destruct (Py.getitem _ _) as [vs|e] eqn:Hget; [|by apply elem_of_nil in Hr'].
      by apply getitem_elem_of.
  - intros nulls_high self offset limit k.
    rewrite view_grouped_slice_unfold. simpl.
    by rewrite values_of_group.
Qed.

Lemma deduplication_by_mapping_id_witness :
  NoDup (Py.keys [(Some 1%Z, [current_mapping])])
  ∧ (∀ k vs, (k, vs) ∈ [(Some 1%Z, [current_mapping])] →
             NoDup (Norm.mapping_id <$> vs))
  ∧ (∀ r, r ∈ norm_fetched true example_db
                (Norm.mkQuerySet [stale_mapping; current_mapping] None) 0 1 →
          ¬ stale example_db r →
          ∃ h rmh vs r',
            Norm.latest_history example_db r = Py.Ok (h, rmh)
            ∧ (Norm.grouping_id h, vs) ∈ [(Some 1%Z, [current_mapping])]
            ∧ r' ∈ vs ∧ Norm.mapping_id r' = Norm.mapping_id r).
Proof.
  destruct deduplication_by_mapping_id as [Hnorm _].
  apply (Hnorm true example_db
           (Norm.mkQuerySet [stale_mapping; current_mapping] None) 0 1
           [(Some 1%Z, [current_mapping])]).
  reflexivity.
Defined.

(** C3 as stated fails for the denormalized form: two rows of the view with
    the same grouping id and the same mapping id are both in the list. *)
Lemma view_keeps_both_rows :
  let r1 := view_row 1 (Some 7%Z) (Some 1%Z) None None in
  let r2 := view_row 2 (Some 7%Z) (Some 1%Z) None None in
  View.mapping_id r1 = View.mapping_id r2
  ∧ View.grouping_id r1 = View.grouping_id r2
  ∧ (View.grouped_slice true (View.mkQuerySet [r1; r2] None) 0 1).1
    = [(Some 1%Z, [r1; r2])].
Proof. split_and!; reflexivity. Qed.

(** ** Pages beyond the groups, empty pages, empty row sets *)

Lemma view_fetched_nil (nulls_high : bool) (self : View.MappingViewQuerySet)
    (offset limit : nat) :
  (View.grouped_count nulls_high self).1 ≤ offset ∨ limit = 0 →
  view_fetched nulls_high self offset limit = [].
Proof.
  rewrite view_grouped_count_unfold. simpl. intros Hpage. unfold view_fetched.
  simpl. replace (qs_limit _ offset limit) with 0; [apply slice_empty|].
  destruct Hpage as [Hoff| ->]; symmetry;
    [by apply qs_limit_beyond | apply qs_limit_zero].
Qed.

Lemma norm_fetched_nil (nulls_high : bool) (db : Norm.Database)
    (self : Norm.MappingQuerySet) (offset limit : nat) :
  (Norm.grouped_count nulls_high db self).1 ≤ offset ∨ limit = 0 →
  norm_fetched nulls_high db self offset limit = [].
Proof.
  rewrite norm_grouped_count_unfold. simpl. intros Hpage.
  unfold norm_fetched, Norm.sub_qs. simpl.
  replace (qs_limit _ offset limit) with 0; [by rewrite slice_empty|].
  destruct Hpage as [Hoff| ->]; symmetry;
    [by apply qs_limit_beyond | apply qs_limit_zero].
Qed.

Lemma view_grouped_slice_empty_page (nulls_high : bool)
    (self : View.MappingViewQuerySet) (offset limit : nat) :
  (View.grouped_count nulls_high self).1 ≤ offset ∨ limit = 0 →
  (View.grouped_slice nulls_high self offset limit).1 = [].
Proof.
  intros Hpage. rewrite view_grouped_slice_unfold. simpl.
  fold (view_fetched nulls_high self offset limit).
  by rewrite view_fetched_nil.
Qed.

Lemma norm_grouped_slice_empty_page (nulls_high : bool) (db : Norm.Database)
    (self : Norm.MappingQuerySet) (offset limit : nat) :
  (Norm.grouped_count nulls_high db self).1 ≤ offset ∨ limit = 0 →
  (Norm.grouped_slice nulls_high db self offset limit).1 = Py.Ok [].
Proof.
  intros Hpage. rewrite norm_grouped_slice_unfold. simpl.
  fold (norm_fetched nulls_high db self offset limit).
  by rewrite norm_fetched_nil.
Qed.

(** C8, as amended: [grouped_slice] returns the empty mapping, and raises
    nothing, when the group offset is at least the number of groups or the
    group limit is 0, in both query-set classes. On an empty row set
    [grouped_count] is 0, [grouped_slice] returns the empty mapping,
    [statuses], [species], [chromosomes] and [types] return the empty list,
    [divergences] returns [0, 0, 0] and [has_patches] returns [False];
    nothing raises. *)
Theorem empty_pages_and_empty_rowsets :
  (∀ (nulls_high : bool) (self : View.MappingViewQuerySet) (offset limit : nat),
     (View.grouped_count nulls_high self).1 ≤ offset ∨ limit = 0 →
     (View.grouped_slice nulls_high self offset limit).1 = [])
  ∧ (∀ (nulls_high : bool) (db : Norm.Database) (self : Norm.MappingQuerySet)
       (offset limit : nat),
     (Norm.grouped_count nulls_high db self).1 ≤ offset ∨ limit = 0 →
     (Norm.grouped_slice nulls_high db self offset limit).1 = Py.Ok [])
  ∧ (∀ (nulls_high : bool) (table : list EnsemblSpeciesHistory)
       (offset limit : nat),
     let self := View.mkQuerySet [] None in
     (View.grouped_count nulls_high self).1 = 0
     ∧ (View.grouped_slice nulls_high self offset limit).1 = []
     ∧ View.statuses self = []
     ∧ View.species table self = Py.Ok []
     ∧ View.chromosomes self = Py.Ok []
     ∧ View.types self = []
     ∧ View.divergences self = [0; 0; 0]
     ∧ View.has_patches self = false)
  ∧ (∀ (nulls_high : bool) (db : Norm.Database) (offset limit : nat),
     let self := Norm.mkQuerySet [] None in
     (Norm.grouped_count nulls_high db self).1 = 0
     ∧ (Norm.grouped_slice nulls_high db self offset limit).1 = Py.Ok []
     ∧ Norm.statuses self = []
     ∧ Norm.species self = []
     ∧ Norm.chromosomes self = Py.Ok []
     ∧ Norm.divergences self = [0; 0; 0]).
Proof.
  split_and!.
  - apply view_grouped_slice_empty_page.
  - apply norm_grouped_slice_empty_page.
  - intros nulls_high table offset limit self. split_and!; try reflexivity.
    apply view_grouped_slice_empty_page. left. simpl. lia.
  - intros nulls_high db offset limit self. split_and!; try reflexivity.
    apply norm_grouped_slice_empty_page. left. simpl. lia.
Qed.

Lemma empty_pages_and_empty_rowsets_witness :
  (View.grouped_slice true
     (View.mkQuerySet [view_row 1 (Some 1%Z) (Some 1%Z) None None] None) 1 5).1 = []
  ∧ (View.grouped_slice true
       (View.mkQuerySet [view_row 1 (Some 1%Z) (Some 1%Z) None None] None) 0 0).1 = []
  ∧ (Norm.grouped_slice true example_db
       (Norm.mkQuerySet [stale_mapping; current_mapping] None) 1 5).1 = Py.Ok []
  ∧ (Norm.grouped_slice true example_db
       (Norm.mkQuerySet [stale_mapping; current_mapping] None) 0 0).1 = Py.Ok [].
Proof.
  destruct empty_pages_and_empty_rowsets as (Hview & Hnorm & _).
  split_and!.
  - apply Hview. left. vm_compute. lia.
  - apply Hview. by right.
  - apply Hnorm. left. vm_compute. lia.
  - apply Hnorm. by right.
Defined.

(** C8 as stated fails for one facet: on an empty row set [divergences()]
    returns three counts, not an empty collection. *)
Lemma divergences_of_empty_rowset :
  View.divergences (View.mkQuerySet [] None) ≠ []
  ∧ Norm.divergences (Norm.mkQuerySet [] None) ≠ [].
Proof. split; discriminate. Qed.

(** ** The order of nullable keys *)

Lemma asc_leb_refl (nulls_high : bool) (a : option Z) :
  Sql.asc_leb nulls_high a a = true.
Proof. destruct a; simpl; [lia | done]. Qed.

Lemma asc_leb_total (nulls_high : bool) (a b : option Z) :
  Sql.asc_leb nulls_high a b = false → Sql.asc_leb nulls_high b a = true.
Proof. destruct a, b, nulls_high; simpl; try done; lia. Qed.

Lemma asc_leb_trans (nulls_high : bool) (a b c : option Z) :
  Sql.asc_leb nulls_high a b = true → Sql.asc_leb nulls_high b c = true →
  Sql.asc_leb nulls_high a c = true.
Proof. destruct a, b, c, nulls_high; simpl; try done; lia. Qed.

Lemma asc_leb_antisym (nulls_high : bool) (a b : option Z) :
  Sql.asc_leb nulls_high a b = true → Sql.asc_leb nulls_high b a = true → a = b.
Proof.
  destruct a, b, nulls_high; simpl; try done; intros; f_equal; lia.
Qed.

(** ** Ordered rows are the groups in the order of their keys *)

Section grouping.
Context {A : Type} (key : A → option Z) (kle : option Z → option Z → bool).
Hypothesis kle_refl : ∀ a, kle a a = true.
Hypothesis kle_total : ∀ a b, kle a b = false → kle b a = true.
Hypothesis kle_trans : ∀ a b c, kle a b = true → kle b c = true → kle a c = true.
Hypothesis kle_antisym : ∀ a b, kle a b = true → kle b a = true → a = b.

Let rle (a b : A) : bool := kle (key a) (key b).

Lemma insert_row_sorted (k : option Z) (ks : list (option Z)) :
  StronglySorted (λ a b, kle a b = true) ks →
  StronglySorted (λ a b, kle a b = true) (Sql.insert_row kle k ks).
Proof using kle_total kle_trans.
  induction ks as [|k' ks IH]; intros Hs; simpl.
  - repeat constructor.
  - apply StronglySorted_inv in Hs as [Hs Hall].
    destruct (kle k k') eqn:Hk.
    + constructor; [by constructor|]. constructor; [done|].
      eapply Forall_impl; [exact Hall|]. simpl. eauto.
    + constructor; [by apply IH|].
      rewrite insert_row_perm. constructor; [by apply kle_total | done].
Qed.

Lemma order_by_sorted (ks : list (option Z)) :
  StronglySorted (λ a b, kle a b = true) (Sql.order_by kle ks).
Proof using kle_total kle_trans.
  induction ks as [|k ks IH]; simpl; [constructor | by apply insert_row_sorted].
Qed.

(** A row passes a block of rows that all come strictly before it. *)
Lemma insert_row_past (x : A) (ys rest : list A) :
  (∀ y, y ∈ ys → rle x y = false) →
  Sql.insert_row rle x (ys ++ rest) = ys ++ Sql.insert_row rle x rest.
Proof.
  induction ys as [|y ys IH]; intros Hys; simpl; [done|].
  rewrite (Hys y) by (by left). f_equal. apply IH. intros y' Hy'.
  apply Hys. by right.
Qed.

Lemma group_of_cons_ne (r : A) (rs : list A) (k : option Z) :
  key r ≠ k → group_of key (r :: rs) k = group_of key rs k.
Proof. intros Hne. unfold group_of. by rewrite filter_cons_False. Qed.

Lemma group_of_cons_eq (r : A) (rs : list A) :
  group_of key (r :: rs) (key r) = r :: group_of key rs (key r).
Proof. unfold group_of. by rewrite filter_cons_True. Qed.

Lemma groups_cons_other (r : A) (rs : list A) (ks : list (option Z)) :
  key r ∉ ks → group_of key (r :: rs) <$> ks = group_of key rs <$> ks.
Proof.
  intros Hnin. apply list_fmap_ext. intros i k Hk.
  apply group_of_cons_ne. intros Heq. apply Hnin. rewrite Heq.
  by apply list_elem_of_lookup_2 in Hk.
Qed.

Lemma elem_of_group_of (rs : list A) (k : option Z) (y : A) :
  y ∈ group_of key rs k → key y = k.
Proof. unfold group_of. rewrite list_elem_of_filter. by intros [? _]. Qed.

Lemma group_of_nonempty (rs : list A) (k : option Z) :
  k ∈ key <$> rs → group_of key rs k ≠ [].
Proof.
  intros (r & -> & Hr)%list_elem_of_fmap Hnil.
  assert (r ∈ group_of key rs (key r)) as Hin by (by apply list_elem_of_filter).
  rewrite Hnil in Hin. by apply elem_of_nil in Hin.
Qed.

Lemma group_of_empty (rs : list A) (k : option Z) :
  k ∉ key <$> rs → group_of key rs k = [].
Proof.
  intros Hnin. unfold group_of. induction rs as [|r rs IH]; [done|].
  rewrite filter_cons_False.
  - apply IH. intros Hin. apply Hnin. rewrite fmap_cons. by right.
  - intros Hk. apply Hnin. rewrite fmap_cons, <- Hk. by left.
Qed.

(** Inserting a row whose key has a group already. *)
Lemma insert_row_existing (r : A) (rs : list A) (ks : list (option Z)) :
  StronglySorted (λ a b, kle a b = true) ks → NoDup ks → key r ∈ ks →
  (∀ k, k ∈ ks → k ∈ key <$> rs) →
  Sql.insert_row rle r (concat (group_of key rs <$> ks))
  = concat (group_of key (r :: rs) <$> ks).
Proof using kle_refl kle_antisym.
  induction ks as [|k ks IH]; intros Hs Hnd Hin Hkeys.
  - by apply elem_of_nil in Hin.
  - apply StronglySorted_inv in Hs as [Hs Hall].
    apply NoDup_cons in Hnd as [Hk Hnd]. rewrite !fmap_cons. simpl.
    destruct (decide (key r = k)) as [<-|Hne].
    + rewrite group_of_cons_eq, (groups_cons_other r rs ks Hk).
      destruct (group_of key rs (key r)) as [|y ys] eqn:Hg.
      { exfalso. eapply group_of_nonempty; [|exact Hg]. apply Hkeys. by left. }
      simpl. unfold rle at 1.
      assert (key y = key r) as ->.
      { apply (elem_of_group_of rs). rewrite Hg. by left. }
      by rewrite kle_refl.
    + apply elem_of_cons in Hin as [?|Hin]; [done|].
      rewrite group_of_cons_ne by done.
      rewrite insert_row_past.
      * f_equal. apply IH; auto. intros k' Hk'. apply Hkeys. by right.
      * intros y Hy. apply elem_of_group_of in Hy. unfold rle. rewrite Hy.
        destruct (kle (key r) k) eqn:Hle; [|done].
        exfalso. apply Hne. apply kle_antisym; [done|].
        by eapply Forall_forall in Hall.
Qed.

(** Inserting a row whose key has no group yet. *)
Lemma insert_row_new (r : A) (rs : list A) (ks : list (option Z)) :
  key r ∉ ks → key r ∉ key <$> rs → (∀ k, k ∈ ks → k ∈ key <$> rs) →
  Sql.insert_row rle r (concat (group_of key rs <$> ks))
  = concat (group_of key (r :: rs) <$> Sql.insert_row kle (key r) ks).
Proof.
  intros Hnin Hfresh. induction ks as [|k ks IH]; intros Hkeys.
  - simpl. by rewrite group_of_cons_eq, group_of_empty.
  - assert (key r ≠ k) as Hne by (intros Heq; apply Hnin; rewrite Heq; by left).
    assert (key r ∉ ks) as Hnin' by (intros ?; apply Hnin; by right).
    rewrite fmap_cons. simpl.
    destruct (group_of key rs k) as [|y ys] eqn:Hg.
    { exfalso. eapply group_of_nonempty; [|exact Hg]. apply Hkeys. by left. }
    assert (∀ y', y' ∈ y :: ys → key y' = k) as Hys.
    { intros y' Hy'. apply (elem_of_group_of rs). by rewrite Hg. }
    simpl. unfold rle at 1. rewrite (Hys y) by (by left).
    destruct (kle (key r) k) eqn:Hle.
    + rewrite !fmap_cons. simpl.
      rewrite group_of_cons_eq, group_of_empty by done.
      rewrite group_of_cons_ne, Hg by done.
      by rewrite (groups_cons_other r rs ks Hnin').
    + rewrite fmap_cons. simpl. rewrite group_of_cons_ne, Hg by done.
      simpl. f_equal. rewrite insert_row_past.
      * f_equal. apply IH; [done|]. intros k' Hk'. apply Hkeys. by right.
      * intros y' Hy'. unfold rle. rewrite (Hys y') by (by right). done.
Qed.

Lemma order_by_groups (rows : list A) :
  Sql.order_by rle rows
  = concat (group_of key rows
              <$> Sql.order_by kle (remove_dups (key <$> rows))).
Proof using kle_refl kle_total kle_trans kle_antisym.
  induction rows as [|r rs IH]; [done|].
  assert (∀ k, k ∈ Sql.order_by kle (remove_dups (key <$> rs)) →
               k ∈ key <$> rs) as Hkeys.
  { intros k. by rewrite order_by_perm, elem_of_remove_dups. }
  simpl. rewrite IH. destruct (decide_rel _ _ _) as [Hin|Hnin].
  - apply insert_row_existing; [apply order_by_sorted | | | done].
    + rewrite order_by_perm. apply NoDup_remove_dups.
    + by rewrite order_by_perm, elem_of_remove_dups.
  - simpl. apply insert_row_new; [|done|done].
    by rewrite order_by_perm, elem_of_remove_dups.
Qed.
End grouping.

Lemma insert_row_fmap {A B} (leA : A → A → bool) (leB : B → B → bool)
    (f : A → B) (x : A) (l : list A) :
  (∀ a b, leB (f a) (f b) = leA a b) →
  Sql.insert_row leB (f x) (f <$> l) = f <$> Sql.insert_row leA x l.
Proof.
  intros Hle. induction l as [|y l IH]; [done|].
  rewrite fmap_cons. simpl. rewrite Hle. destruct (leA x y); [done|].
  by rewrite IH.
Qed.

Lemma order_by_fmap {A B} (leA : A → A → bool) (leB : B → B → bool)
    (f : A → B) (l : list A) :
  (∀ a b, leB (f a) (f b) = leA a b) →
  Sql.order_by leB (f <$> l) = f <$> Sql.order_by leA l.
Proof.
  intros Hle. induction l as [|x l IH]; [done|].
  rewrite fmap_cons. simpl. rewrite IH. by apply insert_row_fmap.
Qed.

Lemma take_sum_concat {A} (gs : list (list A)) (n : nat) :
  take (Py.sum (length <$> take n gs)) (concat gs) = concat (take n gs).
Proof.
  revert n. induction gs as [|g gs IH]; intros [|n]; try done.
  rewrite firstn_cons, fmap_cons. simpl.
  by rewrite take_app_add, IH.
Qed.

Lemma drop_sum_concat {A} (gs : list (list A)) (n : nat) :
  drop (Py.sum (length <$> take n gs)) (concat gs) = concat (drop n gs).
Proof.
  revert n. induction gs as [|g gs IH]; intros [|n]; try done.
  rewrite firstn_cons, fmap_cons. simpl.
  by rewrite drop_app_add, IH.
Qed.

Lemma slice_sum_concat {A} (gs : list (list A)) (offset limit : nat) :
  let lo := Py.sum (length <$> take offset gs) in
  let n := Py.sum (length <$> take limit (drop offset gs)) in
  Py.slice lo (lo + n) (concat gs) = concat (take limit (drop offset gs)).
Proof.
  intros lo n. unfold Py.slice. replace (lo + n - lo) with n by lia.
  subst lo n. by rewrite drop_sum_concat, take_sum_concat.
Qed.

Section build_groups.
Context {K V : Type} `{EqDecision K} (key : V → K).

Lemma append_or_create_new (d : Py.odict K V) (k : K) (v : V) :
  k ∉ Py.keys d → Py.append_or_create d k v = d ++ [(k, [v])].
Proof.
  induction d as [|[k0 vs0] d IH]; intros Hnin; [done|].
  unfold Py.keys in *. rewrite fmap_cons in Hnin.
  apply not_elem_of_cons in Hnin as [Hne Hnin].
  rewrite append_or_create_cons_ne by done. by rewrite IH.
Qed.

Lemma append_or_create_last (d : Py.odict K V) (k : K) (vs : list V) (v : V) :
  k ∉ Py.keys d →
  Py.append_or_create (d ++ [(k, vs)]) k v = d ++ [(k, vs ++ [v])].
Proof.
  induction d as [|[k0 vs0] d IH]; intros Hnin.
  - apply append_or_create_cons_eq.
  - unfold Py.keys in *. rewrite fmap_cons in Hnin.
    apply not_elem_of_cons in Hnin as [Hne Hnin]. simpl.
    rewrite append_or_create_cons_ne by done. by rewrite IH.
Qed.

Lemma build_last_group (d : Py.odict K V) (k : K) (vs l : list V) :
  k ∉ Py.keys d → (∀ y, y ∈ l → key y = k) →
  foldl (λ d r, Py.append_or_create d (key r) r) (d ++ [(k, vs)]) l
  = d ++ [(k, vs ++ l)].
Proof.
  intros Hnin. revert vs. induction l as [|y l IH]; intros vs Hl; simpl.
  - by rewrite app_nil_r.
  - rewrite (Hl y) by (by left). rewrite append_or_create_last by done.
    rewrite IH; [by rewrite <- app_assoc|]. intros y' Hy'. apply Hl. by right.
Qed.

Lemma build_group (d : Py.odict K V) (k : K) (l : list V) :
  k ∉ Py.keys d → l ≠ [] → (∀ y, y ∈ l → key y = k) →
  foldl (λ d r, Py.append_or_create d (key r) r) d l = d ++ [(k, l)].
Proof.
  intros Hnin Hne Hl. destruct l as [|y l]; [done|]. simpl.
  rewrite (Hl y) by (by left). rewrite append_or_create_new by done.
  apply build_last_group; [done|]. intros y' Hy'. apply Hl. by right.
Qed.

Lemma build_groups (G : K → list V) (ks : list K) (d : Py.odict K V) :
  NoDup ks → (∀ k, k ∈ ks → k ∉ Py.keys d) →
  (∀ k, k ∈ ks → G k ≠ [] ∧ ∀ y, y ∈ G k → key y = k) →
  foldl (λ d r, Py.append_or_create d (key r) r) d (concat (G <$> ks))
  = d ++ ((λ k, (k, G k)) <$> ks).
Proof.
  revert d. induction ks as [|k ks IH]; intros d Hnd Hfresh HG.
  - simpl. by rewrite app_nil_r.
  - apply NoDup_cons in Hnd as [Hk Hnd]. rewrite !fmap_cons. simpl.
    rewrite foldl_app.
    destruct (HG k) as [Hne Hkey]; [by left|].
    rewrite (build_group d k (G k)); [|apply Hfresh; by left|done|done].
    rewrite IH; [by rewrite <- app_assoc | done | |].
    + intros k' Hk'. unfold Py.keys. rewrite fmap_app. simpl.
      intros [Hin|Hin]%elem_of_app.
      * apply (Hfresh k'); [by right | done].
      * apply list_elem_of_singleton in Hin. by subst.
    + intros k' Hk'. apply HG. by right.
Qed.
End build_groups.

(** ** The denormalized form pages whole groups *)

Lemma view_rows_ordered (nulls_high : bool) (rows : list View.MappingView) :
  Sql.order_by (View.by_grouping_id_desc nulls_high) rows
  = concat (group_of View.grouping_id rows <$> view_keys nulls_high rows).
Proof.
  apply (order_by_groups View.grouping_id (Sql.desc_leb nulls_high)).
  - intros a. apply asc_leb_refl.
  - intros a b. apply asc_leb_total.
  - intros a b c Hab Hbc. exact (asc_leb_trans nulls_high c b a Hbc Hab).
  - intros a b Hab Hba. exact (asc_leb_antisym nulls_high a b Hba Hab).
Qed.

Lemma count_case_expr (rows : list View.MappingView) :
  Sql.count_expr View.case_isnull_then_1_default_1 rows = length rows.
Proof.
  unfold Sql.count_expr. f_equal. induction rows as [|r rows IH]; [done|].
  rewrite filter_cons_True; [by rewrite IH|].
  unfold View.case_isnull_then_1_default_1. by case_decide.
Qed.

Lemma view_counts_groups (nulls_high : bool) (rows : list View.MappingView) :
  (View.grouped_counts nulls_high (View.mkQuerySet rows None)).1
  = (λ k, Sql.mkGroupCount k (length (group_of View.grouping_id rows k)))
      <$> view_keys nulls_high rows.
Proof.
  unfold View.grouped_counts, Sql.values_annotate_count, view_keys. simpl.
  erewrite (order_by_fmap (Sql.desc_leb nulls_high)); [|done].
  apply list_fmap_ext. intros i k _. f_equal. apply count_case_expr.
Qed.

Lemma view_totals (nulls_high : bool) (rows : list View.MappingView) :
  Sql.total <$> (View.grouped_counts nulls_high (View.mkQuerySet rows None)).1
  = length <$> (group_of View.grouping_id rows <$> view_keys nulls_high rows).
Proof. rewrite view_counts_groups, <- !list_fmap_compose. done. Qed.

Lemma qs_offset_take (counts : list Sql.GroupCount) (offset : nat) :
  qs_offset counts offset = Py.sum (take offset (Sql.total <$> counts)).
Proof.
  unfold qs_offset. case_decide as H0; [by subst|].
  unfold Py.slice. by rewrite Nat.sub_0_r, drop_0, fmap_take.
Qed.

Lemma qs_limit_take (counts : list Sql.GroupCount) (offset limit : nat) :
  qs_limit counts offset limit
  = Py.sum (take limit (drop offset (Sql.total <$> counts))).
Proof.
  unfold qs_limit, Py.slice. replace (offset + limit - offset) with limit by lia.
  by rewrite fmap_take, fmap_drop.
Qed.

(** The rows fetched are the rows of the groups of the page, group after
    group. *)
Lemma view_fetched_groups (nulls_high : bool) (rows : list View.MappingView)
    (offset limit : nat) :
  view_fetched nulls_high (View.mkQuerySet rows None) offset limit
  = concat (group_of View.grouping_id rows
              <$> take limit (drop offset (view_keys nulls_high rows))).
Proof.
  unfold view_fetched. cbv zeta.
  rewrite qs_offset_take, qs_limit_take, view_totals. simpl View.rows.
  rewrite view_rows_ordered.
  rewrite (fmap_take (group_of View.grouping_id rows)),
    (fmap_drop (group_of View.grouping_id rows)).
  set (gs := group_of View.grouping_id rows <$> view_keys nulls_high rows).
  rewrite <- fmap_drop, <- !fmap_take. apply slice_sum_concat.
Qed.

Lemma view_keys_NoDup (nulls_high : bool) (rows : list View.MappingView) :
  NoDup (view_keys nulls_high rows).
Proof. unfold view_keys. rewrite order_by_perm. apply NoDup_remove_dups. Qed.

Lemma elem_of_view_keys (nulls_high : bool) (rows : list View.MappingView)
    (k : option Z) :
  k ∈ view_keys nulls_high rows ↔ ∃ r, r ∈ rows ∧ View.grouping_id r = k.
Proof.
  unfold view_keys. rewrite order_by_perm, elem_of_remove_dups, list_elem_of_fmap.
  split; intros (r & H1 & H2); exists r; by split.
Qed.

(** The mapping returned for a page is the list of the groups of the page,
    each with all its rows. *)
Lemma view_grouped_slice_groups (nulls_high : bool)
    (rows : list View.MappingView) (offset limit : nat) :
  (View.grouped_slice nulls_high (View.mkQuerySet rows None) offset limit).1
  = (λ k, (k, group_of View.grouping_id rows k))
      <$> take limit (drop offset (view_keys nulls_high rows)).
Proof.
  rewrite view_grouped_slice_unfold. cbv zeta. unfold fst at 1.
  pose proof (view_fetched_groups nulls_high rows offset limit) as Hf.
  unfold view_fetched in Hf. cbv zeta in Hf. rewrite Hf.
  rewrite (build_groups View.grouping_id); [done | | |].
  - eapply sublist_NoDup; [apply (view_keys_NoDup nulls_high rows)|].
    etrans; [apply sublist_take | apply sublist_drop].
  - intros k _ Hk. by apply elem_of_nil in Hk.
  - intros k Hk. split.
    + apply group_of_nonempty.
      apply (subseteq_take limit), (subseteq_drop offset) in Hk.
      apply elem_of_view_keys in Hk as (r & Hr & <-).
      apply list_elem_of_fmap. by exists r.
    + apply elem_of_group_of.
Qed.

(** ** Rows returned and rows counted *)

Lemma loop_body_total_len (db : Norm.Database) (st st' : Norm.LoopState)
    (result : Norm.Mapping) :
  Norm.loop_body db st result = Py.Ok st' →
  Py.total_len (Norm.grouped_results st') ≤ S (Py.total_len (Norm.grouped_results st)).
Proof.
  intros Hbody.
  destruct (loop_body_ok _ _ _ _ Hbody)
    as (h & rmh & _ & [(_ & -> & _)|(_ & _ & -> & _)]); [lia|].
  by rewrite total_len_append_or_create.
Qed.

Lemma for_each_total_len (db : Norm.Database) (xs : list Norm.Mapping)
    (st st' : Norm.LoopState) :
  Py.for_each (Norm.loop_body db) xs st = Py.Ok st' →
  Py.total_len (Norm.grouped_results st')
  ≤ Py.total_len (Norm.grouped_results st) + length xs.
Proof.
  revert st. induction xs as [|x xs IH]; intros st; simpl.
  - intros [= <-]. lia.
  - destruct (Norm.loop_body db st x) as [st1|e] eqn:Hbody; simpl; [|done].
    intros Hrun. apply IH in Hrun. apply loop_body_total_len in Hbody. lia.
Qed.

Lemma total_len_groups {K V} (G : K → list V) (ks : list K) :
  Py.total_len ((λ k, (k, G k)) <$> ks) = Py.sum (length <$> (G <$> ks)).
Proof.
  unfold Py.total_len. by rewrite <- !list_fmap_compose.
Qed.

(** C2, as amended. Denormalized form: the number of rows in the lists of
    the mapping that [grouped_slice] returns is the sum of the ['total'] of
    the counts at the indices from [offset] up to [offset + limit].
    Normalized form: the number of rows in the lists is at most that sum;
    rows with a mapping id seen before and stale rows are counted and not
    returned. *)
Theorem slice_rows_and_counts :
  (∀ (nulls_high : bool) (rows : list View.MappingView) (offset limit : nat),
     let self := View.mkQuerySet rows None in
     Py.total_len (View.grouped_slice nulls_high self offset limit).1
     = Py.sum (total_at (View.grouped_counts nulls_high self).1
                 <$> seq offset limit))
  ∧ (∀ (nulls_high : bool) (db : Norm.Database) (self : Norm.MappingQuerySet)
       (offset limit : nat) (m : Py.odict (option Z) Norm.Mapping),
       (Norm.grouped_slice nulls_high db self offset limit).1 = Py.Ok m →
       Py.total_len m
       ≤ Py.sum (total_at (Norm.grouped_counts nulls_high db self).1
                   <$> seq offset limit)).
Proof.
  split.
  - intros nulls_high rows offset limit self. subst self.
    rewrite view_grouped_slice_groups, total_len_groups.
    rewrite <- qs_limit_indices, qs_limit_take, view_totals.
    by rewrite !fmap_take, !fmap_drop.
  - intros nulls_high db self offset limit m Hm.
    destruct (norm_grouped_slice_inv _ _ _ _ _ _ Hm) as (st & Hrun & -> & _).
    apply for_each_total_len in Hrun. simpl in Hrun.
    rewrite <- qs_limit_indices. etrans; [exact Hrun|].
    unfold norm_fetched, Norm.sub_qs. cbv zeta. rewrite length_fmap.
    apply length_slice_le.
Qed.

Lemma slice_rows_and_counts_witness :
  Py.total_len [(Some 1%Z, [current_mapping])]
  ≤ Py.sum (total_at
              (Norm.grouped_counts true example_db
                 (Norm.mkQuerySet [stale_mapping; current_mapping] None)).1
              <$> seq 0 1).
Proof.
  destruct slice_rows_and_counts as [_ Hnorm].
  apply (Hnorm true example_db
           (Norm.mkQuerySet [stale_mapping; current_mapping] None) 0 1).
  reflexivity.
Defined.

(** C2 as stated fails for the normalized form: of the three rows counted
    in the first group, one is stale and one repeats a mapping id; the
    mapping holds one row. *)
Lemma normalized_slice_returns_fewer_rows :
  let self := Norm.mkQuerySet [stale_mapping; current_mapping] None in
  (Norm.grouped_slice true example_db self 0 1).1
  = Py.Ok [(Some 1%Z, [current_mapping])]
  ∧ Py.total_len [(Some 1%Z, [current_mapping])] = 1
  ∧ Py.sum (total_at (Norm.grouped_counts true example_db self).1 <$> seq 0 1) = 3.
Proof. split_and!; reflexivity. Qed.

(** ** The group of the rows without a grouping id *)

(** In the denormalized form every group key that occurs in the row set,
    NULL included, has its entry in the counts, with the number of its rows
    as ['total']. *)
Lemma view_counts_every_key (nulls_high : bool) (rows : list View.MappingView)
    (r : View.MappingView) :
  r ∈ rows →
  Sql.mkGroupCount (View.grouping_id r)
    (length (group_of View.grouping_id rows (View.grouping_id r)))
  ∈ (View.grouped_counts nulls_high (View.mkQuerySet rows None)).1.
Proof.
  intros Hr. rewrite view_counts_groups. apply list_elem_of_fmap.
  exists (View.grouping_id r). split; [done|].
  apply elem_of_view_keys. by exists r.
Qed.

(** C4 fails on the normalized form, where ['total'] is the [COUNT] of the
    grouping id itself: the group of the one row without a grouping id is
    counted with the total 0. With NULL ordered last, the page of that group
    is empty; with NULL ordered first, the first page is empty and the page
    of the group 1 returns the row without a grouping id. *)
Theorem normalized_null_group_total :
  let self := Norm.mkQuerySet null_group_mappings None in
  length (filter (λ p, p.2 = None)
            (Norm.join_grouping_id null_group_db null_group_mappings)) = 1
  ∧ (Norm.grouped_counts true null_group_db self).1
    = [Sql.mkGroupCount (Some 1%Z) 1; Sql.mkGroupCount None 0]
  ∧ (Norm.grouped_count true null_group_db self).1 = 2
  ∧ (Norm.grouped_slice true null_group_db self 1 1).1 = Py.Ok []
  ∧ (Norm.grouped_counts false null_group_db self).1
    = [Sql.mkGroupCount None 0; Sql.mkGroupCount (Some 1%Z) 1]
  ∧ (Norm.grouped_slice false null_group_db self 0 1).1 = Py.Ok []
  ∧ (Norm.grouped_slice false null_group_db self 1 1).1
    = Py.Ok [(None, [mapping_row 1 None None])].
Proof. split_and!; reflexivity. Qed.

(** On every row set of the normalized form, the entry of the NULL key has
    the total 0. *)
Lemma norm_null_total_zero (nulls_high : bool) (db : Norm.Database)
    (rows : list Norm.Mapping) (c : Sql.GroupCount) :
  c ∈ (Norm.grouped_counts nulls_high db (Norm.mkQuerySet rows None)).1 →
  Sql.group_key c = None → Sql.total c = 0.
Proof.
  unfold Norm.grouped_counts. simpl. rewrite order_by_perm.
  unfold Sql.values_annotate_count. intros (k & -> & _)%list_elem_of_fmap.
  simpl. intros ->. unfold Sql.count_expr.
  induction (Norm.join_grouping_id db rows) as [|[m g] l IH]; [done|].
  rewrite filter_cons. case_decide as Hg; [|done]. simpl in Hg. subst g.
  rewrite filter_cons_False; [done|]. simpl. by intros [? ?].
Qed.

(** * Further properties of the code *)

(** ** The counts of the denormalized form *)

Lemma length_concat_sum {A} (gs : list (list A)) :
  length (concat gs) = Py.sum (length <$> gs).
Proof.
  induction gs as [|g gs IH]; [done|].
  rewrite fmap_cons. simpl. by rewrite length_app, IH.
Qed.

Lemma view_group_keys (nulls_high : bool) (rows : list View.MappingView) :
  Sql.group_key <$> (View.grouped_counts nulls_high (View.mkQuerySet rows None)).1
  = view_keys nulls_high rows.
Proof.
  rewrite view_counts_groups, <- list_fmap_compose. apply list_fmap_id.
Qed.

Lemma view_keys_sorted (nulls_high : bool) (rows : list View.MappingView) :
  StronglySorted (λ a b, Sql.desc_leb nulls_high a b = true)
    (view_keys nulls_high rows).
Proof.
  apply order_by_sorted.
  - intros a b. apply asc_leb_total.
  - intros a b c Hab Hbc. exact (asc_leb_trans nulls_high c b a Hbc Hab).
Qed.

Lemma view_totals_sum (nulls_high : bool) (rows : list View.MappingView) :
  Py.sum (Sql.total
            <$> (View.grouped_counts nulls_high (View.mkQuerySet rows None)).1)
  = length rows.
Proof.
  rewrite view_totals, <- length_concat_sum, <- view_rows_ordered.
  by rewrite order_by_perm.
Qed.

(** X1: the counts of a query set of the view have one entry for each
    grouping id that occurs in the rows, NULL included, and no other; the
    entries are in descending order of the grouping id; the ['total'] of an
    entry is the number of rows with its grouping id, so it is positive and
    the totals add up to the number of rows; [grouped_count] is the number
    of distinct grouping ids. *)
Theorem view_counts_partition (nulls_high : bool) (rows : list View.MappingView) :
  let self := View.mkQuerySet rows None in
  let counts := (View.grouped_counts nulls_high self).1 in
  NoDup (Sql.group_key <$> counts)
  ∧ (∀ k, k ∈ Sql.group_key <$> counts ↔
          ∃ r, r ∈ rows ∧ View.grouping_id r = k)
  ∧ StronglySorted (λ a b, Sql.desc_leb nulls_high a b = true)
      (Sql.group_key <$> counts)
  ∧ (∀ c, c ∈ counts →
       Sql.total c
       = length (filter (λ r, View.grouping_id r = Sql.group_key c) rows)
       ∧ 0 < Sql.total c)
  ∧ Py.sum (Sql.total <$> counts) = length rows
  ∧ (View.grouped_count nulls_high self).1
    = length (remove_dups (View.grouping_id <$> rows)).
Proof.
  intros self counts. subst self counts. rewrite view_group_keys.
  split_and!.
  - apply view_keys_NoDup.
  - apply elem_of_view_keys.
  - apply view_keys_sorted.
  - intros c. rewrite view_counts_groups.
    intros (k & -> & Hk)%list_elem_of_fmap. simpl. split; [done|].
    apply elem_of_view_keys in Hk as (r & Hr & <-).
    assert (group_of View.grouping_id rows (View.grouping_id r) ≠ []) as Hne.
    { apply group_of_nonempty, list_elem_of_fmap. by exists r. }
    destruct (group_of _ _ _); [done | simpl; lia].
  - apply view_totals_sum.
  - rewrite view_grouped_count_unfold. simpl fst.
    rewrite order_by_perm. unfold Sql.values_annotate_count.
    by rewrite length_fmap.
Qed.

Lemma view_counts_partition_witness :
  Sql.total (Sql.mkGroupCount (Some 2%Z) 2)
  = length (filter (λ r, View.grouping_id r = Some 2%Z) paging_view_rows)
  ∧ 0 < Sql.total (Sql.mkGroupCount (Some 2%Z) 2).
Proof.
  destruct (view_counts_partition true paging_view_rows) as (_ & _ & _ & H & _).
  apply (H (Sql.mkGroupCount (Some 2%Z) 2)).
  apply list_elem_of_In. vm_compute. auto.
Defined.

(** ** Pages of the denormalized form *)

(** X2: on a query set of the view, [grouped_slice] returns, for each
    entry of the counts at the indices from [offset] up to
    [offset + limit], in that order, the grouping id of the entry with the
    list of all rows of the query set that have this grouping id; so a page
    has [limit] groups, or the groups that are left after [offset]. *)
Theorem view_grouped_slice_pages_groups (nulls_high : bool)
    (rows : list View.MappingView) (offset limit : nat) :
  let self := View.mkQuerySet rows None in
  let counts := (View.grouped_counts nulls_high self).1 in
  (View.grouped_slice nulls_high self offset limit).1
  = (λ c, (Sql.group_key c,
           filter (λ r, View.grouping_id r = Sql.group_key c) rows))
      <$> Py.slice offset (offset + limit) counts
  ∧ length (View.grouped_slice nulls_high self offset limit).1
    = limit `min` ((View.grouped_count nulls_high self).1 - offset).
Proof.
  intros self counts. subst self counts.
  rewrite view_grouped_slice_groups, view_grouped_count_unfold.
  rewrite view_counts_groups. simpl fst. split.
  - unfold Py.slice. replace (offset + limit - offset) with limit by lia.
    by rewrite <- fmap_drop, <- fmap_take, <- list_fmap_compose.
  - by rewrite !length_fmap, length_take, length_drop.
Qed.

(** X3: asking a query set of the view for all its groups
    ([grouped_slice(0, grouped_count)]) returns every row exactly once, in
    the list of its own grouping id: the lists, one after the other, are the
    rows of the query set in the order of the ranged fetch, and the keys are
    distinct. *)
Theorem view_all_groups_partition (nulls_high : bool)
    (rows : list View.MappingView) :
  let self := View.mkQuerySet rows None in
  let m := (View.grouped_slice nulls_high self 0
              (View.grouped_count nulls_high self).1).1 in
  concat (snd <$> m) = Sql.order_by (View.by_grouping_id_desc nulls_high) rows
  ∧ concat (snd <$> m) ≡ₚ rows
  ∧ NoDup (Py.keys m)
  ∧ (∀ k vs r, (k, vs) ∈ m → r ∈ vs → View.grouping_id r = k).
Proof.
  intros self m. subst self m.
  rewrite view_grouped_slice_groups, view_grouped_count_unfold. cbn [fst].
  rewrite view_counts_groups, length_fmap, drop_0, firstn_all.
  assert (concat (snd <$> ((λ k, (k, group_of View.grouping_id rows k))
                             <$> view_keys nulls_high rows))
          = Sql.order_by (View.by_grouping_id_desc nulls_high) rows) as Hcat.
  { rewrite view_rows_ordered, <- list_fmap_compose. done. }
  split_and!.
  - done.
  - rewrite Hcat. apply order_by_perm.
  - unfold Py.keys. rewrite <- list_fmap_compose.
    replace (fst ∘ (λ k, (k, group_of View.grouping_id rows k)))
      with (@id (option Z)) by done.
    rewrite list_fmap_id. apply view_keys_NoDup.
  - intros k vs r (k' & [= -> ->] & _)%list_elem_of_fmap Hr.
    by apply elem_of_group_of in Hr.
Qed.

Lemma view_all_groups_partition_witness :
  View.grouping_id (view_row 4 (Some 4%Z) (Some 2%Z) None None) = Some 2%Z.
Proof.
  destruct (view_all_groups_partition true paging_view_rows) as (_ & _ & _ & H).
  apply (H (Some 2%Z)
           [view_row 4 (Some 4%Z) (Some 2%Z) None None;
            view_row 5 (Some 5%Z) (Some 2%Z) None None]).
  - apply list_elem_of_In. vm_compute. auto.
  - by left.
Defined.

(** X4: on a query set of the view, a page of [k] groups followed by the
    page of the next [m] groups is the page of [k + m] groups: the two
    mappings, one after the other, are the mapping of the larger page. *)
Theorem view_pages_concatenate (nulls_high : bool)
    (rows : list View.MappingView) (offset k m : nat) :
  let self := View.mkQuerySet rows None in
  (View.grouped_slice nulls_high self offset k).1
  ++ (View.grouped_slice nulls_high self (offset + k) m).1
  = (View.grouped_slice nulls_high self offset (k + m)).1.
Proof.
  intros self. subst self. rewrite !view_grouped_slice_groups.
  rewrite <- fmap_app. f_equal.
  rewrite <- (drop_drop (view_keys nulls_high rows) k offset).
  apply take_take_drop.
Qed.

(** ** The counts of the normalized form *)

Lemma norm_rows_ordered (nulls_high : bool) (db : Norm.Database)
    (rows : list Norm.Mapping) :
  Sql.order_by (Norm.by_grouping_id_asc nulls_high)
    (Norm.join_grouping_id db rows)
  = concat (group_of snd (Norm.join_grouping_id db rows)
              <$> norm_keys nulls_high db rows).
Proof.
  apply (order_by_groups snd (Sql.asc_leb nulls_high)).
  - apply asc_leb_refl.
  - apply asc_leb_total.
  - apply asc_leb_trans.
  - apply asc_leb_antisym.
Qed.

Lemma norm_counts_groups (nulls_high : bool) (db : Norm.Database)
    (rows : list Norm.Mapping) :
  (Norm.grouped_counts nulls_high db (Norm.mkQuerySet rows None)).1
  = (λ k, Sql.mkGroupCount k
            (Sql.count_expr snd (group_of snd (Norm.join_grouping_id db rows) k)))
      <$> norm_keys nulls_high db rows.
Proof.
  unfold Norm.grouped_counts, Sql.values_annotate_count, norm_keys. simpl.
  by erewrite (order_by_fmap (Sql.asc_leb nulls_high)).
Qed.

Lemma elem_of_norm_keys (nulls_high : bool) (db : Norm.Database)
    (rows : list Norm.Mapping) (k : option Z) :
  k ∈ norm_keys nulls_high db rows
  ↔ ∃ p, p ∈ Norm.join_grouping_id db rows ∧ p.2 = k.
Proof.
  unfold norm_keys. rewrite order_by_perm, elem_of_remove_dups, list_elem_of_fmap.
  split; intros (p & H1 & H2); exists p; by split.
Qed.

Lemma count_expr_concat {A} (expr : A → option Z) (gs : list (list A)) :
  Py.sum (Sql.count_expr expr <$> gs) = Sql.count_expr expr (concat gs).
Proof.
  unfold Sql.count_expr. induction gs as [|g gs IH]; [done|].
  rewrite fmap_cons. simpl. by rewrite filter_app, length_app, IH.
Qed.

Lemma count_expr_group (l : list (Norm.Mapping * option Z)) (k : option Z) :
  Sql.count_expr snd (group_of snd l k)
  = if k is Some _ then length (group_of snd l k) else 0.
Proof.
  unfold Sql.count_expr, group_of. induction l as [|[m g] l IH]; [by destruct k|].
  rewrite (filter_cons (λ r, r.2 = k)). case_decide as Hg; [|done].
  simpl in Hg. subst g. destruct k as [z|].
  - rewrite filter_cons_True; [|by exists z]. simpl. by rewrite IH.
  - rewrite filter_cons_False; [done|]. simpl. by intros [? ?].
Qed.

Lemma length_join_grouping_id (db : Norm.Database) (rows : list Norm.Mapping) :
  length rows ≤ length (Norm.join_grouping_id db rows).
Proof.
  unfold Norm.join_grouping_id. induction rows as [|m rows IH]; [done|].
  rewrite fmap_cons, concat_cons, length_app.
  destruct (Norm.mapping_history db m) as [|h hs].
  - rewrite !length_cons. simpl length at 2. lia.
  - rewrite length_fmap, !length_cons. lia.
Qed.

(** X5: the counts of a query set of the normalized form are counts of
    the join of the mappings with their history entries, which has at least
    one row for each mapping. They have one entry for each joined grouping
    id, NULL included, in ascending order; the ['total'] of a grouping id
    that is not NULL is the number of joined rows with it, the ['total'] of
    NULL is 0, and the totals add up to the number of joined rows whose
    grouping id is not NULL. *)
Theorem norm_counts_totals (nulls_high : bool) (db : Norm.Database)
    (rows : list Norm.Mapping) :
  let joined := Norm.join_grouping_id db rows in
  let counts :=
    (Norm.grouped_counts nulls_high db (Norm.mkQuerySet rows None)).1 in
  length rows ≤ length joined
  ∧ NoDup (Sql.group_key <$> counts)
  ∧ (∀ k, k ∈ Sql.group_key <$> counts ↔ ∃ p, p ∈ joined ∧ p.2 = k)
  ∧ StronglySorted (λ a b, Sql.asc_leb nulls_high a b = true)
      (Sql.group_key <$> counts)
  ∧ (∀ c, c ∈ counts →
       Sql.total c
       = if Sql.group_key c is Some _
         then length (filter (λ p, p.2 = Sql.group_key c) joined)
         else 0)
  ∧ Py.sum (Sql.total <$> counts)
    = length (filter (λ p, is_Some p.2) joined).
Proof.
  intros joined counts. subst joined counts.
  assert (Sql.group_key
            <$> (Norm.grouped_counts nulls_high db (Norm.mkQuerySet rows None)).1
          = norm_keys nulls_high db rows) as Hkeys.
  { rewrite norm_counts_groups, <- list_fmap_compose. apply list_fmap_id. }
  rewrite Hkeys. split_and!.
  - apply length_join_grouping_id.
  - unfold norm_keys. rewrite order_by_perm. apply NoDup_remove_dups.
  - apply elem_of_norm_keys.
  - apply order_by_sorted; [apply asc_leb_total | apply asc_leb_trans].
  - intros c. rewrite norm_counts_groups.
    intros (k & -> & _)%list_elem_of_fmap. simpl. apply count_expr_group.
  - rewrite norm_counts_groups, <- list_fmap_compose.
    change (Sql.total ∘ _)
      with (Sql.count_expr (A:=Norm.Mapping * option Z) snd
              ∘ group_of snd (Norm.join_grouping_id db rows)).
    rewrite list_fmap_compose, count_expr_concat, <- norm_rows_ordered.
    unfold Sql.count_expr. by rewrite order_by_perm.
Qed.

Lemma norm_counts_totals_witness :
  Sql.total (Sql.mkGroupCount None 0) = 0.
Proof.
  destruct (norm_counts_totals true null_group_db null_group_mappings)
    as (_ & _ & _ & _ & H & _).
  apply (H (Sql.mkGroupCount None 0)).
  apply list_elem_of_In. vm_compute. auto.
Defined.

(** ** What the normalized [grouped_slice] raises, and where it lists a row *)

Lemma latest_history_raises (db : Norm.Database) (m : Norm.Mapping) :
  (no_history db m → Norm.latest_history db m = Py.Raise Py.DoesNotExist)
  ∧ (¬ no_history db m → Py.is_ok (Norm.latest_history db m) = true).
Proof.
  unfold no_history, Norm.latest_history.
  destruct (Norm.with_release db (Norm.mapping_history db m)); by split.
Qed.

Lemma loop_body_raises (db : Norm.Database) (st : Norm.LoopState)
    (m : Norm.Mapping) :
  no_history db m → Norm.loop_body db st m = Py.Raise Py.DoesNotExist.
Proof.
  intros Hm. unfold Norm.loop_body.
  by rewrite (proj1 (latest_history_raises db m) Hm).
Qed.

Lemma for_each_loop_body (db : Norm.Database) (xs : list Norm.Mapping)
    (st : Norm.LoopState) :
  (Forall (λ r, ¬ no_history db r) xs
   ∧ ∃ st', Py.for_each (Norm.loop_body db) xs st = Py.Ok st')
  ∨ (Exists (no_history db) xs
     ∧ Py.for_each (Norm.loop_body db) xs st = Py.Raise Py.DoesNotExist).
Proof.
  revert st. induction xs as [|x xs IH]; intros st.
  - left. split; [constructor | by eexists].
  - simpl. destruct (Norm.with_release db (Norm.mapping_history db x)) eqn:Hx.
    + right. split; [by left|]. by rewrite loop_body_raises.
    + destruct (loop_body_total db st x) as [st1 ->].
      { apply latest_history_raises. unfold no_history. by rewrite Hx. }
      simpl. destruct (IH st1) as [[Hall Hok]|[Hex Hraise]].
      * left. split; [|done]. constructor; [|done].
        unfold no_history. by rewrite Hx.
      * right. split; [by right | done].
Qed.

Lemma norm_grouped_slice_result (nulls_high : bool) (db : Norm.Database)
    (self : Norm.MappingQuerySet) (offset limit : nat) :
  (Norm.grouped_slice nulls_high db self offset limit).1
  = (st ← Py.for_each (Norm.loop_body db)
            (norm_fetched nulls_high db self offset limit)
            (Norm.mkLoopState [] ∅);
     mret (Norm.grouped_results st)).
Proof. by rewrite norm_grouped_slice_unfold. Qed.

(** X6: the normalized [grouped_slice] raises exactly when one of the rows
    it fetches is a mapping without history (no history entry whose release
    exists), and what it raises then is [DoesNotExist]; stale rows and
    repeated rows raise nothing. *)
Theorem norm_grouped_slice_raises (nulls_high : bool) (db : Norm.Database)
    (self : Norm.MappingQuerySet) (offset limit : nat) :
  ((Norm.grouped_slice nulls_high db self offset limit).1
   = Py.Raise Py.DoesNotExist
   ↔ ∃ r, r ∈ norm_fetched nulls_high db self offset limit ∧ no_history db r)
  ∧ (∀ e, (Norm.grouped_slice nulls_high db self offset limit).1 = Py.Raise e →
          e = Py.DoesNotExist).
Proof.
  rewrite norm_grouped_slice_result.
  destruct (for_each_loop_body db (norm_fetched nulls_high db self offset limit)
              (Norm.mkLoopState [] ∅)) as [[Hall [st ->]]|[Hex ->]]; simpl.
  - split; [|intros e He; discriminate He]. split; [intros He; discriminate He|].
    intros (r & Hr & Hno).
    rewrite Forall_forall in Hall. by destruct (Hall r Hr).
  - split; [|by intros e [= <-]]. split; [|done]. intros _.
    by apply Exists_exists in Hex.
Qed.

Lemma norm_grouped_slice_raises_witness :
  (Norm.grouped_slice false null_group_db
     (Norm.mkQuerySet [mapping_row 7 None None; mapping_row 2 None None] None)
     1 1).1
  = Py.Raise Py.DoesNotExist.
Proof.
  apply (norm_grouped_slice_raises false null_group_db
           (Norm.mkQuerySet [mapping_row 7 None None; mapping_row 2 None None]
              None) 1 1).
  exists (mapping_row 7 None None). split; [by left | reflexivity].
Defined.

Lemma elem_of_values_of {K V} `{EqDecision K} (d : Py.odict K V) (k : K)
    (vs : list V) :
  NoDup (Py.keys d) → (k, vs) ∈ d → values_of d k = vs.
Proof. intros Hnd Hin. unfold values_of. by rewrite (elem_of_getitem d k vs). Qed.

Lemma for_each_rows_from (db : Norm.Database) (all xs : list Norm.Mapping)
    (st st' : Norm.LoopState) :
  (∀ x, x ∈ xs → x ∈ all) →
  (∀ k vs, (k, vs) ∈ Norm.grouped_results st → vs ≠ [] ∧ ∀ r, r ∈ vs → r ∈ all) →
  Py.for_each (Norm.loop_body db) xs st = Py.Ok st' →
  ∀ k vs, (k, vs) ∈ Norm.grouped_results st' → vs ≠ [] ∧ ∀ r, r ∈ vs → r ∈ all.
Proof.
  revert st. induction xs as [|x xs IH]; intros st Hxs Hst; simpl.
  - by intros [= <-].
  - destruct (Norm.loop_body db st x) as [st1|e] eqn:Hbody; simpl; [|done].
    apply IH; [intros y Hy; apply Hxs; by right|].
    destruct (loop_body_ok _ _ _ _ Hbody)
      as (h & rmh & _ & [(_ & -> & _)|(_ & _ & -> & _)]); [done|].
    intros k vs Hin. apply elem_of_append_or_create in Hin.
    destruct Hin as [Hin|(Hk & vs0 & Hvs & Hvs0)]; [by apply (Hst k vs)|].
    subst k vs.
    split; [by destruct vs0|].
    intros r Hr. apply elem_of_app in Hr as [Hr|Hr].
    + destruct Hvs0 as [Hin|Hnil]; [by apply (Hst _ _ Hin)|].
      subst vs0. by apply elem_of_nil in Hr.
    + apply list_elem_of_singleton in Hr. subst r. apply Hxs. by left.
Qed.

(** X7: in the mapping that the normalized [grouped_slice] returns, no list
    is empty, every listed row is one of the rows fetched (so a mapping of
    the query set), and it is listed under the grouping id of its most
    recently mapped history entry, whichever joined grouping id it was
    ordered and counted by. *)
Theorem norm_rows_listed_under_latest_grouping_id (nulls_high : bool)
    (db : Norm.Database) (self : Norm.MappingQuerySet) (offset limit : nat)
    (m : Py.odict (option Z) Norm.Mapping) (k : option Z)
    (vs : list Norm.Mapping) :
  (Norm.grouped_slice nulls_high db self offset limit).1 = Py.Ok m →
  (k, vs) ∈ m →
  vs ≠ []
  ∧ ∀ r, r ∈ vs →
      r ∈ norm_fetched nulls_high db self offset limit
      ∧ r ∈ Norm.rows self
      ∧ ∃ h rmh, Norm.latest_history db r = Py.Ok (h, rmh)
                 ∧ Norm.grouping_id h = k.
Proof.
  intros Hm Hin.
  destruct (norm_grouped_slice_inv _ _ _ _ _ _ Hm) as (st & Hrun & -> & _).
  destruct (norm_grouped_slice_recorded _ _ _ _ _ _ Hrun) as (Hkeys & _ & Hkey).
  destruct (for_each_rows_from db _ _ _ _ (λ x Hx, Hx)
              (λ k vs (H : (k, vs) ∈ []), False_ind _ (proj1 (elem_of_nil _) H))
              Hrun k vs Hin) as [Hne Hrows].
  split; [done|]. intros r Hr. split_and!.
  - by apply Hrows.
  - eapply norm_fetched_rows. by apply Hrows.
  - apply Hkey. by rewrite (elem_of_values_of _ k vs).
Qed.

Lemma norm_rows_listed_under_latest_grouping_id_witness :
  [current_mapping] ≠ []
  ∧ ∀ r, r ∈ [current_mapping] →
      r ∈ norm_fetched true example_db
            (Norm.mkQuerySet [stale_mapping; current_mapping] None) 0 1
      ∧ r ∈ [stale_mapping; current_mapping]
      ∧ ∃ h rmh, Norm.latest_history example_db r = Py.Ok (h, rmh)
                 ∧ Norm.grouping_id h = Some 1%Z.
Proof.
  apply (norm_rows_listed_under_latest_grouping_id true example_db
           (Norm.mkQuerySet [stale_mapping; current_mapping] None) 0 1
           [(Some 1%Z, [current_mapping])]).
  - reflexivity.
  - by left.
Defined.

(** ** [species()] of the denormalized form *)

Lemma latest_from_max {A} (field : A → Z) (best : A) (l : list A) :
  (field best ≤ field (Sql.latest_from field best l))%Z
  ∧ ∀ y, y ∈ l → (field y ≤ field (Sql.latest_from field best l))%Z.
Proof.
  revert best. induction l as [|x l IH]; intros best; simpl.
  - split; [lia | by intros y ?%elem_of_nil].
  - destruct (IH (if (field best <? field x)%Z then x else best)) as [Hb Hl].
    destruct (Z.ltb_spec (field best) (field x)).
    + split; [lia|]. intros y [->|Hy]%elem_of_cons; [lia | auto].
    + split; [lia|]. intros y [->|Hy]%elem_of_cons; [lia | auto].
Qed.

Lemma latest_max {A} (field : A → Z) (l : list A) (x : A) :
  Sql.latest field l = Py.Ok x → ∀ y, y ∈ l → (field y ≤ field x)%Z.
Proof.
  destruct l as [|b l]; [done|]. simpl. intros [= <-] y.
  destruct (latest_from_max field b l) as [Hb Hl].
  intros [->|Hy]%elem_of_cons; auto.
Qed.

Lemma species_loop (table : list EnsemblSpeciesHistory)
    (taxes : list (option Z)) (acc : list (option Z * option string)) :
  let body := λ (species_list : list (option Z * option string)) tax,
    row ← Sql.latest time_loaded (filter (λ h, ensembl_tax_id h = tax) table);
    mret (species_list ++ [(tax, species_name row)]) in
  (Forall (λ t, ∃ h, h ∈ table ∧ ensembl_tax_id h = t) taxes
   ∧ ∃ l, Py.for_each body taxes acc = Py.Ok (acc ++ l)
          ∧ l.*1 = taxes
          ∧ ∀ t n, (t, n) ∈ l →
              ∃ h, h ∈ table ∧ ensembl_tax_id h = t ∧ species_name h = n
                   ∧ ∀ h', h' ∈ table → ensembl_tax_id h' = t →
                           (time_loaded h' ≤ time_loaded h)%Z)
  ∨ (Exists (λ t, ∀ h, h ∈ table → ensembl_tax_id h ≠ t) taxes
     ∧ Py.for_each body taxes acc = Py.Raise Py.DoesNotExist).
Proof.
  intros body. revert acc. induction taxes as [|t taxes IH]; intros acc.
  - left. split; [constructor|]. exists []. simpl. rewrite app_nil_r.
    split_and!; [done | done | by intros t n ?%elem_of_nil].
  - simpl.
    destruct (Sql.latest time_loaded (filter (λ h, ensembl_tax_id h = t) table))
      as [row|e] eqn:Hrow.
    + assert (body acc t = Py.Ok (acc ++ [(t, species_name row)])) as ->.
      { unfold body. by rewrite Hrow. }
      pose proof (latest_elem _ _ _ Hrow) as Hin.
      apply list_elem_of_filter in Hin as [Htax Hin].
      simpl. destruct (IH (acc ++ [(t, species_name row)]))
        as [(Hall & l & Hrun & Hfst & Hl)|[Hex Hraise]].
      * left. split; [constructor; [by exists row | done]|].
        exists ((t, species_name row) :: l). rewrite Hrun, <- app_assoc.
        split_and!; [reflexivity | rewrite fmap_cons, Hfst; reflexivity |].
        intros t' n [Heq|Hin']%elem_of_cons; [|auto].
        injection Heq as -> ->.
        exists row. split_and!; [done | done | done |].
        intros h' Hh' Htax'. apply (latest_max _ _ _ Hrow).
        by apply list_elem_of_filter.
      * right. split; [by right | done].
    + assert (body acc t = Py.Raise Py.DoesNotExist) as ->.
      { unfold body. by destruct (filter _ table). }
      right. split; [|done]. left.
      intros h Hh Htax. destruct (filter _ table) as [|h0 l0] eqn:Hf; [|done].
      assert (h ∈ filter (λ h, ensembl_tax_id h = t) table) as Hin
        by (by apply list_elem_of_filter).
      rewrite Hf in Hin. by apply elem_of_nil in Hin.
Qed.

(** X8: [species()] of the denormalized form raises [DoesNotExist] when one
    of the distinct tax ids of the rows (NULL included) has no species
    history entry; otherwise it returns one pair for each distinct tax id, in
    the order of the distinct values, whose name is the name of an entry of
    that tax id with the greatest load time. *)
Theorem view_species_latest_name (table : list EnsemblSpeciesHistory)
    (self : View.MappingViewQuerySet) :
  let taxes := Sql.values_distinct View.uniprot_tax_id (View.rows self) in
  ((∀ t, t ∈ taxes → ∃ h, h ∈ table ∧ ensembl_tax_id h = t) →
   ∃ l, View.species table self = Py.Ok l
        ∧ l.*1 = taxes
        ∧ ∀ t n, (t, n) ∈ l →
            ∃ h, h ∈ table ∧ ensembl_tax_id h = t ∧ species_name h = n
                 ∧ ∀ h', h' ∈ table → ensembl_tax_id h' = t →
                         (time_loaded h' ≤ time_loaded h)%Z)
  ∧ ((∃ t, t ∈ taxes ∧ ∀ h, h ∈ table → ensembl_tax_id h ≠ t) →
     View.species table self = Py.Raise Py.DoesNotExist).
Proof.
  intros taxes. unfold View.species. fold taxes.
  destruct (species_loop table taxes [])
    as [(Hall & l & Hrun & Hfst & Hl)|[Hex Hraise]].
  - split.
    + intros _. by exists l.
    + intros (t & Ht & Hnone). rewrite Forall_forall in Hall.
      destruct (Hall t Ht) as (h & Hh & Htax). by destruct (Hnone h Hh).
  - split; [|done]. intros Hall. apply Exists_exists in Hex as (t & Ht & Hnone).
    destruct (Hall t Ht) as (h & Hh & Htax). by destruct (Hnone h Hh).
Qed.

Lemma view_species_latest_name_witness :
  (∃ l, View.species
          [mkEnsemblSpeciesHistory (Some 9606%Z) 1 (Some "homo"%string);
           mkEnsemblSpeciesHistory (Some 9606%Z) 2 (Some "Homo sapiens"%string)]
          (View.mkQuerySet paging_view_rows None) = Py.Ok l
        ∧ l.*1 = [Some 9606%Z]
        ∧ ∀ t n, (t, n) ∈ l →
            ∃ h, h ∈ [mkEnsemblSpeciesHistory (Some 9606%Z) 1 (Some "homo"%string);
                      mkEnsemblSpeciesHistory (Some 9606%Z) 2
                        (Some "Homo sapiens"%string)]
                 ∧ ensembl_tax_id h = t ∧ species_name h = n
                 ∧ ∀ h', h' ∈ [mkEnsemblSpeciesHistory (Some 9606%Z) 1
                                 (Some "homo"%string);
                               mkEnsemblSpeciesHistory (Some 9606%Z) 2
                                 (Some "Homo sapiens"%string)] →
                         ensembl_tax_id h' = t →
                         (time_loaded h' ≤ time_loaded h)%Z)
  ∧ View.species [] (View.mkQuerySet paging_view_rows None)
    = Py.Raise Py.DoesNotExist.
Proof.
  split.
  - apply (view_species_latest_name
             [mkEnsemblSpeciesHistory (Some 9606%Z) 1 (Some "homo"%string);
              mkEnsemblSpeciesHistory (Some 9606%Z) 2 (Some "Homo sapiens"%string)]
             (View.mkQuerySet paging_view_rows None)).
    intros t Ht. vm_compute in Ht. apply list_elem_of_singleton in Ht as ->.
    eexists. split; [by left | reflexivity].
  - apply (view_species_latest_name [] (View.mkQuerySet paging_view_rows None)).
    exists (Some 9606%Z). split.
    + apply list_elem_of_In. vm_compute. auto.
    + by intros h ?%elem_of_nil.
Defined.

(** ** The vocabulary maps are read once *)

Lemma load_nonempty (table : list CvRow) : table ≠ [] → Vocab.load table ≠ ∅.
Proof.
  intros Hne Hempty.
  destruct (last table) as [r|] eqn:Hlast; [|by apply last_None in Hlast].
  assert (Vocab.load table !! cv_id r = None) as Hnone
    by (by rewrite Hempty, lookup_empty).
  rewrite load_lookup in Hnone.
  apply last_Some in Hlast as [l' ->]. rewrite filter_app in Hnone.
  rewrite filter_cons_True, filter_nil, last_snoc in Hnone by done. done.
Qed.

Lemma ensure_kept (cache : gmap Z string) (table table' : list CvRow) :
  table ≠ [] ∨ cache ≠ ∅ →
  Vocab.ensure (Vocab.ensure cache table) table' = Vocab.ensure cache table.
Proof.
  intros Hne. unfold Vocab.ensure at 1. rewrite decide_False; [done|].
  unfold Vocab.ensure. case_decide as Hc; [|done].
  destruct Hne as [Hne|Hne]; [by apply load_nonempty | done].
Qed.

(** X9: once a vocabulary class method has been called while its table had
    a row (or while a map was stored already), its class attribute holds a
    map that is never read again from the table: every later call of the
    same method answers from that map, whatever the table holds by then,
    for [Mapping.entry_type], [Mapping.status_type],
    [MappingView.entry_description] and [MappingView.status_description]. *)
Theorem vocabulary_read_once (t t' : Vocab.Tables) (cls : Vocab.Classes)
    (identity identity' : Z) :
  (Vocab.CvEntryType_all t ≠ [] ∨ Vocab.Mapping_entry_type_cache cls ≠ ∅ →
   (Vocab.entry_type t' (Vocab.entry_type t cls identity).2 identity').1
   = Vocab.subscript
       (Vocab.ensure (Vocab.Mapping_entry_type_cache cls) (Vocab.CvEntryType_all t))
       identity')
  ∧ (Vocab.CvUeStatus_all t ≠ [] ∨ Vocab.Mapping_status_type_cache cls ≠ ∅ →
     (Vocab.status_type t' (Vocab.status_type t cls identity).2 identity').1
     = Vocab.subscript
         (Vocab.ensure (Vocab.Mapping_status_type_cache cls) (Vocab.CvUeStatus_all t))
         identity')
  ∧ (Vocab.CvEntryType_all t ≠ [] ∨ Vocab.MappingView_entry_type_cache cls ≠ ∅ →
     (Vocab.entry_description t'
        (Vocab.entry_description t cls identity).2 identity').1
     = Vocab.subscript_or_None
         (Vocab.ensure (Vocab.MappingView_entry_type_cache cls)
            (Vocab.CvEntryType_all t))
         identity')
  ∧ (Vocab.CvUeStatus_all t ≠ [] ∨ Vocab.MappingView_status_type_cache cls ≠ ∅ →
     (Vocab.status_description t'
        (Vocab.status_description t cls identity).2 identity').1
     = Vocab.subscript_or_None
         (Vocab.ensure (Vocab.MappingView_status_type_cache cls)
            (Vocab.CvUeStatus_all t))
         identity').
Proof.
  split_and!; intros Hne;
    unfold Vocab.entry_type, Vocab.status_type, Vocab.entry_description,
      Vocab.status_description; simpl; by rewrite ensure_kept.
Qed.

Lemma vocabulary_read_once_witness :
  (Vocab.entry_type (Vocab.mkTables [mkCvRow 1 "changed"] [])
     (Vocab.entry_type (Vocab.mkTables [mkCvRow 1 "Swiss-Prot"] [])
        (Vocab.mkClasses ∅ ∅ ∅ ∅) 1%Z).2 1%Z).1
  = Vocab.subscript (Vocab.ensure ∅ [mkCvRow 1 "Swiss-Prot"]) 1%Z.
Proof.
  destruct (vocabulary_read_once
              (Vocab.mkTables [mkCvRow 1 "Swiss-Prot"] [])
              (Vocab.mkTables [mkCvRow 1 "changed"] [])
              (Vocab.mkClasses ∅ ∅ ∅ ∅) 1%Z 1%Z) as [H _].
  apply H. left. discriminate.
Defined.

(** ** [difference] of a mapping and of its row in the view *)

Section methods_facts.
Context {Float Cigar : Type}.
Variable is_one : Float → bool.
Variable calculate_difference : Cigar → Py.result Z.

Notation Alignment := (Methods.Alignment (Float:=Float) (Cigar:=Cigar)).
Notation MappingRow := (Methods.MappingRow (Float:=Float) (Cigar:=Cigar)).
Notation perfect := (Methods.perfect_match is_one).
Notation difference_from :=
  (Methods.Mapping_difference_from is_one calculate_difference).
Notation view_difference_from :=
  (Methods.MappingView_difference_from is_one calculate_difference).

Lemma truthy_or_None_zero (diff_count : option Z) :
  Methods.truthy_or_None diff_count ≠ Some 0%Z.
Proof.
  destruct diff_count as [d|]; [|done]. simpl.
  destruct (Z.eqb_spec d 0); congruence.
Qed.

Lemma difference_from_zero (diff_count : option Z) (als : list Alignment) :
  difference_from diff_count als = Py.Ok (Some 0%Z) →
  ∃ a, a ∈ als ∧ perfect a = true.
Proof.
  revert diff_count. induction als as [|a als IH]; intros diff_count; simpl.
  - intros [= H]. by destruct (truthy_or_None_zero diff_count).
  - destruct (perfect a) eqn:Hp.
    { intros _. exists a. split; [by left | done]. }
    destruct (Methods.identity a).
    + destruct (Methods.alignment_difference calculate_difference a) as [d|e];
        simpl; [|done].
      intros (a' & Ha' & Hp')%IH. exists a'. split; [by right | done].
    + intros (a' & Ha' & Hp')%IH. exists a'. split; [by right | done].
Qed.

Lemma difference_from_agree (diff_count : option Z) (als : list Alignment)
    (v : option Z) :
  difference_from diff_count als = Py.Ok v →
  view_difference_from diff_count als = v
  ∨ (v = None ∧ view_difference_from diff_count als = Some 0%Z).
Proof.
  revert diff_count. induction als as [|a als IH]; intros diff_count; simpl.
  - intros [= <-]. destruct diff_count as [d|]; [|by left]. simpl.
    destruct (Z.eqb_spec d 0) as [->|Hd]; [by right | by left].
  - destruct (perfect a); [intros [= <-]; by left|].
    destruct (Methods.identity a); [|apply IH].
    destruct (Methods.alignment_difference calculate_difference a) as [d|e];
      simpl; [apply IH | done].
Qed.

Lemma difference_from_raises (diff_count : option Z) (als : list Alignment)
    (e : Py.exn) :
  difference_from diff_count als = Py.Raise e →
  ∃ pre a post,
    als = pre ++ a :: post
    ∧ Methods.identity a = true
    ∧ Methods.alignment_difference calculate_difference a = Py.Raise e
    ∧ (∀ x, x ∈ pre → perfect x = false)
    ∧ view_difference_from diff_count als = view_difference_from diff_count pre.
Proof.
  revert diff_count. induction als as [|a als IH]; intros diff_count; simpl;
    [done|].
  destruct (perfect a) eqn:Hp; [done|].
  destruct (Methods.identity a) eqn:Hi.
  - destruct (Methods.alignment_difference calculate_difference a) as [d|e']
      eqn:Hd; simpl.
    + intros (pre & b & post & -> & Hb & Hraise & Hpre & Hview)%IH.
      exists (a :: pre), b, post. split_and!; [done | done | done | |].
      * intros x [->|Hx]%elem_of_cons; auto.
      * simpl. by rewrite Hp, Hi, Hd.
    + intros [= ->]. exists [], a, als.
      split_and!; [done | done | done | by intros x ?%elem_of_nil | done].
  - intros (pre & b & post & -> & Hb & Hraise & Hpre & Hview)%IH.
    exists (a :: pre), b, post. split_and!; [done | done | done | |].
    + intros x [->|Hx]%elem_of_cons; auto.
    + simpl. by rewrite Hp, Hi.
Qed.

(** X10: when [Mapping.difference] returns, [MappingView.difference] of a
    view row of that mapping returns the same value, except that a
    calculated difference of 0 comes back as [None] from
    [Mapping.difference] and as 0 from [MappingView.difference];
    [Mapping.difference] returns 0 only when an alignment is a perfect match
    with the score 1. *)
Theorem difference_of_mapping_and_view (table : list MappingRow)
    (self : MappingRow) (v : option Z) :
  Methods.get_mapping table (Some (Methods.pk self)) = Py.Ok self →
  Methods.Mapping_difference is_one calculate_difference self = Py.Ok v →
  (v = Some 0%Z →
   ∃ a, a ∈ Methods.alignments self ∧ Methods.perfect_match is_one a = true)
  ∧ (Methods.MappingView_difference is_one calculate_difference table
       (Some (Methods.pk self)) = v
     ∨ (v = None
        ∧ Methods.MappingView_difference is_one calculate_difference table
            (Some (Methods.pk self)) = Some 0%Z)).
Proof.
  intros Hget Hv. unfold Methods.MappingView_difference. rewrite Hget. split.
  - intros ->. by apply (difference_from_zero None).
  - by apply difference_from_agree.
Qed.

(** X11: when [Mapping.difference] raises, it is the calculation of the
    difference of an alignment of type [identity] that raised, and
    [MappingView.difference] of a view row of that mapping returns what it
    returns for the alignments before that one. *)
Theorem difference_of_view_when_mapping_raises (table : list MappingRow)
    (self : MappingRow) (e : Py.exn) :
  Methods.get_mapping table (Some (Methods.pk self)) = Py.Ok self →
  Methods.Mapping_difference is_one calculate_difference self = Py.Raise e →
  ∃ pre a post,
    Methods.alignments self = pre ++ a :: post
    ∧ Methods.identity a = true
    ∧ Methods.alignment_difference calculate_difference a = Py.Raise e
    ∧ (∀ x, x ∈ pre → Methods.perfect_match is_one x = false)
    ∧ Methods.MappingView_difference is_one calculate_difference table
        (Some (Methods.pk self))
      = Methods.MappingView_difference_from is_one calculate_difference None pre.
Proof.
  intros Hget Hraise. unfold Methods.MappingView_difference. rewrite Hget.
  by apply difference_from_raises.
Qed.

End methods_facts.

Lemma difference_of_mapping_and_view_witness :
  (None = Some 0%Z →
   ∃ a, a ∈ Methods.alignments identical_mapping
        ∧ Methods.perfect_match (Z.eqb 1) a = true)
  ∧ (Methods.MappingView_difference (Z.eqb 1) stored_difference
       [identical_mapping; broken_mapping] (Some 1%Z) = None
     ∨ (@None Z = None
        ∧ Methods.MappingView_difference (Z.eqb 1) stored_difference
            [identical_mapping; broken_mapping] (Some 1%Z) = Some 0%Z)).
Proof.
  apply (difference_of_mapping_and_view (Z.eqb 1) stored_difference
           [identical_mapping; broken_mapping] identical_mapping None);
    reflexivity.
Defined.

Lemma difference_of_view_when_mapping_raises_witness :
  ∃ pre a post,
    Methods.alignments broken_mapping = pre ++ a :: post
    ∧ Methods.identity a = true
    ∧ Methods.alignment_difference stored_difference a
      = Py.Raise Py.DoesNotExist
    ∧ (∀ x, x ∈ pre → Methods.perfect_match (Z.eqb 1) x = false)
    ∧ Methods.MappingView_difference (Z.eqb 1) stored_difference
        [identical_mapping; broken_mapping] (Some 2%Z)
      = Methods.MappingView_difference_from (Z.eqb 1) stored_difference None pre.
Proof.
  apply (difference_of_view_when_mapping_raises (Z.eqb 1) stored_difference
           [identical_mapping; broken_mapping] broken_mapping Py.DoesNotExist);
    reflexivity.
Defined.

(** ** [statuses] of a mapping and of its row in the view *)

Lemma insert_row_sorted_by {A} (f : A → Z) (x : A) (l : list A) :
  StronglySorted (λ a b, (f a ≤ f b)%Z) l →
  StronglySorted (λ a b, (f a ≤ f b)%Z)
    (Sql.insert_row (λ a b, (f a <=? f b)%Z) x l).
Proof.
  induction l as [|y l IH]; intros Hs; simpl.
  - repeat constructor.
  - apply StronglySorted_inv in Hs as [Hs Hall].
    destruct (Z.leb_spec (f x) (f y)) as [Hxy|Hxy].
    + constructor; [by constructor|]. constructor; [done|].
      eapply Forall_impl; [exact Hall|]. simpl. intros z Hz. lia.
    + constructor; [by apply IH|].
      rewrite insert_row_perm. constructor; [lia | done].
Qed.

Lemma order_by_sorted_by {A} (f : A → Z) (l : list A) :
  StronglySorted (λ a b, (f a ≤ f b)%Z)
    (Sql.order_by (λ a b, (f a <=? f b)%Z) l).
Proof.
  induction l as [|x l IH]; simpl; [constructor | by apply insert_row_sorted_by].
Qed.

Lemma ensure_again (cache : gmap Z string) (table : list CvRow) :
  Vocab.ensure (Vocab.ensure cache table) table = Vocab.ensure cache table.
Proof.
  unfold Vocab.ensure. destruct (decide (cache = ∅)) as [->|Hc].
  - by destruct (decide (Vocab.load table = ∅)).
  - by rewrite decide_False.
Qed.

Lemma view_statuses_from_nothing (t : Vocab.Tables) (usernames : bool)
    (statuses : list Methods.StatusEntry) (cls : Vocab.Classes)
    (status_set : list Methods.StatusRow) :
  Methods.MappingView_statuses_from t usernames statuses cls status_set
  = (statuses, cls).
Proof.
  induction status_set as [|status rest IH]; [done|]. simpl.
  by destruct (usernames && bool_decide (is_Some (Methods.user_stamp status))).
Qed.

(** X12: [MappingView.statuses] returns the empty list for every view row,
    whatever the status history of its mapping, and reads no vocabulary: a
    row with a user stamp asked with [usernames] appends nothing, and for
    every other row the entry to append calls [MappingView.status_type],
    which the class does not define, so the [except] ends the loop. *)
Theorem view_statuses_always_empty {Float Cigar : Type} (t : Vocab.Tables)
    (cls : Vocab.Classes)
    (table : list (Methods.MappingRow (Float:=Float) (Cigar:=Cigar)))
    (mapping_id : option Z) (usernames : bool) :
  Methods.MappingView_statuses t cls table mapping_id usernames = ([], cls).
Proof.
  unfold Methods.MappingView_statuses.
  destruct (Methods.get_mapping table mapping_id); [|done].
  apply view_statuses_from_nothing.
Qed.

Lemma mapping_statuses_from (t : Vocab.Tables) (usernames : bool)
    (statuses : list Methods.StatusEntry) (cls : Vocab.Classes)
    (status_set : list Methods.StatusRow) (m : gmap Z string) :
  Vocab.ensure (Vocab.Mapping_status_type_cache cls) (Vocab.CvUeStatus_all t) = m →
  (Forall (λ s, is_Some (m !! Methods.status_id s)) status_set
   ∧ ∃ l, (Methods.Mapping_statuses_from t usernames statuses cls status_set).1
          = Py.Ok (statuses ++ l)
          ∧ Forall2 (λ e s, Methods.entry_status e = m !! Methods.status_id s
                            ∧ Methods.entry_time_stamp e = Methods.time_stamp s
                            ∧ Methods.entry_user e = Methods.user_of usernames s)
              l status_set)
  ∨ (Exists (λ s, m !! Methods.status_id s = None) status_set
     ∧ (Methods.Mapping_statuses_from t usernames statuses cls status_set).1
       = Py.Raise Py.KeyError).
Proof.
  revert statuses cls. induction status_set as [|s rest IH];
    intros statuses cls Hm.
  - left. split; [constructor|]. exists []. simpl. by rewrite app_nil_r.
  - simpl. unfold Vocab.subscript. rewrite Hm.
    destruct (m !! Methods.status_id s) as [d|] eqn:Hd.
    + set (cls' := Vocab.mkClasses _ _ _ _).
      destruct (IH (statuses ++ [Methods.mkStatusEntry (Some d)
                                   (Methods.time_stamp s)
                                   (Methods.user_of usernames s)]) cls')
        as [(Hall & l & Hrun & Hl)|[Hex Hraise]].
      { subst cls'. simpl. rewrite <- Hm. apply ensure_again. }
      * left. split; [constructor; [by rewrite Hd | done]|].
        eexists (_ :: l). rewrite Hrun, <- app_assoc. split; [done|].
        constructor; [|done]. simpl. by rewrite Hd.
      * right. split; [by right | done].
    + right. split; [by left | done].
Qed.

(** X13: with [m] the vocabulary map of [Mapping.status_type], when the
    status id of every row of the status history is in [m],
    [Mapping.statuses] returns one entry for each row of the history, in
    ascending order of the time stamp, with the description of the status
    id, the time stamp, and as user the full name of the user stamp when
    [usernames] is set (without [usernames] every user is [None]); when the
    status id of a row is not in [m], it raises [KeyError]. *)
Theorem mapping_statuses_in_time_order {Float Cigar : Type} (t : Vocab.Tables)
    (cls : Vocab.Classes)
    (self : Methods.MappingRow (Float:=Float) (Cigar:=Cigar))
    (usernames : bool) :
  let m := Vocab.ensure (Vocab.Mapping_status_type_cache cls)
             (Vocab.CvUeStatus_all t) in
  let status_set :=
    Sql.order_by Methods.by_time_stamp (Methods.status_history self) in
  status_set ≡ₚ Methods.status_history self
  ∧ StronglySorted (λ a b, (Methods.time_stamp a ≤ Methods.time_stamp b)%Z)
      status_set
  ∧ ((∀ s, s ∈ Methods.status_history self → is_Some (m !! Methods.status_id s)) →
     ∃ l, (Methods.Mapping_statuses t cls self usernames).1 = Py.Ok l
          ∧ Forall2 (λ e s, Methods.entry_status e = m !! Methods.status_id s
                            ∧ Methods.entry_time_stamp e = Methods.time_stamp s
                            ∧ Methods.entry_user e
                              = if usernames then Methods.user_stamp s else None)
              l status_set)
  ∧ ((∃ s, s ∈ Methods.status_history self ∧ m !! Methods.status_id s = None) →
     (Methods.Mapping_statuses t cls self usernames).1 = Py.Raise Py.KeyError).
Proof.
  intros m status_set. split_and!.
  - apply order_by_perm.
  - apply (order_by_sorted_by Methods.time_stamp).
  - intros Hall. unfold Methods.Mapping_statuses. fold status_set.
    destruct (mapping_statuses_from t usernames [] cls status_set m eq_refl)
      as [(_ & l & Hrun & Hl)|[Hex _]].
    + exists l. split; [done|]. eapply Forall2_impl; [exact Hl|].
      intros e s (He & Ht & Hu). split_and!; [done | done |].
      rewrite Hu. unfold Methods.user_of.
      by destruct usernames, (Methods.user_stamp s).
    + apply Exists_exists in Hex as (s & Hs & Hnone).
      subst status_set. rewrite order_by_perm in Hs.
      destruct (Hall s Hs) as [d Hd]. congruence.
  - intros (s & Hs & Hnone). unfold Methods.Mapping_statuses. fold status_set.
    destruct (mapping_statuses_from t usernames [] cls status_set m eq_refl)
      as [(Hall & _)|[_ Hraise]]; [|done].
    rewrite Forall_forall in Hall. destruct (Hall s) as [d Hd]; [|congruence].
    subst status_set. by rewrite order_by_perm.
Qed.

Lemma mapping_statuses_in_time_order_witness :
  (∃ l, (Methods.Mapping_statuses status_tables (Vocab.mkClasses ∅ ∅ ∅ ∅)
           reviewed_mapping true).1 = Py.Ok l
        ∧ Forall2 (λ e s,
                     Methods.entry_status e
                     = Vocab.ensure ∅ [mkCvRow 1 "Reviewed"]
                         !! Methods.status_id s
                     ∧ Methods.entry_time_stamp e = Methods.time_stamp s
                     ∧ Methods.entry_user e = Methods.user_stamp s)
            l (Sql.order_by Methods.by_time_stamp
                 (Methods.status_history reviewed_mapping)))
  ∧ (Methods.Mapping_statuses status_tables (Vocab.mkClasses ∅ ∅ ∅ ∅)
       unknown_status_mapping false).1 = Py.Raise Py.KeyError.
Proof.
  split.
  - destruct (mapping_statuses_in_time_order status_tables
                (Vocab.mkClasses ∅ ∅ ∅ ∅) reviewed_mapping true)
      as (_ & _ & H & _).
    apply H. intros s Hs.
    apply elem_of_cons in Hs as [->|Hs];
      [|apply list_elem_of_singleton in Hs as ->]; by eexists.
  - destruct (mapping_statuses_in_time_order status_tables
                (Vocab.mkClasses ∅ ∅ ∅ ∅) unknown_status_mapping false)
      as (_ & _ & _ & H).
    apply H. eexists. split; [by left | reflexivity].
Defined.

(** ** Pages of the normalized form on a regular row set *)

Lemma loop_regular (db : Norm.Database) (xs : list Norm.Mapping)
    (st : Norm.LoopState) :
  NoDup (Norm.mapping_id <$> xs) →
  (∀ x k, x ∈ xs →
          Norm.mapping_id x ∉ added_set (Norm.grouped_results_added st) k) →
  (∀ x, x ∈ xs →
        ¬ stale db x ∧ Py.is_ok (Norm.latest_history db x) = true) →
  ∃ st', Py.for_each (Norm.loop_body db) xs st = Py.Ok st'
         ∧ Norm.grouped_results st'
           = foldl (λ d r, Py.append_or_create d (latest_grouping_id db r) r)
               (Norm.grouped_results st) xs.
Proof.
  revert st. induction xs as [|x xs IH]; intros st Hnd Hfresh Hxs.
  - by eexists.
  - rewrite fmap_cons in Hnd. apply NoDup_cons in Hnd as [Hx Hnd].
    destruct (Hxs x) as [Hcurrent Hok]; [by left|].
    destruct (loop_body_total db st x Hok) as [st1 Hbody].
    destruct (loop_body_ok _ _ _ _ Hbody)
      as (h & rmh & Hl & [([Hseen|Hstale] & _)|(_ & _ & Hres & Hadd)]).
    { destruct (Hfresh x (Norm.grouping_id h)); [by left | done]. }
    { done. }
    destruct (IH st1 Hnd) as (st' & Hrun & Hres').
    + intros y k Hy. rewrite Hadd.
      assert (Norm.mapping_id y
              ∉ added_set (Norm.grouped_results_added st) k) as Hold
        by (apply Hfresh; by right).
      case_decide; [|done]. intros [Hin|Hin]%elem_of_union; [|done].
      apply elem_of_singleton in Hin. apply Hx. rewrite <- Hin.
      apply list_elem_of_fmap. by exists y.
    + intros y Hy. apply Hxs. by right.
    + exists st'. simpl. rewrite Hbody. simpl. split; [done|].
      rewrite Hres', Hres.
      assert (latest_grouping_id db x = Norm.grouping_id h) as ->; [|done].
      unfold latest_grouping_id. by rewrite Hl.
Qed.

Lemma join_regular (db : Norm.Database) (rows : list Norm.Mapping) :
  (∀ m, m ∈ rows →
        ∃ h rmh, Norm.mapping_history db m = [h]
                 ∧ Norm.latest_history db m = Py.Ok (h, rmh)) →
  Norm.join_grouping_id db rows = (λ m, (m, latest_grouping_id db m)) <$> rows.
Proof.
  unfold Norm.join_grouping_id. induction rows as [|m rows IH]; intros Hrows;
    [done|].
  rewrite !fmap_cons, concat_cons, IH by (intros m' Hm'; apply Hrows; by right).
  destruct (Hrows m) as (h & rmh & Hh & Hl); [by left|].
  assert (latest_grouping_id db m = Norm.grouping_id h) as ->.
  { unfold latest_grouping_id. by rewrite Hl. }
  by rewrite Hh.
Qed.

Lemma group_of_pairs {A} (key : A → option Z) (rows : list A) (k : option Z) :
  fst <$> group_of snd ((λ m, (m, key m)) <$> rows) k
  = filter (λ m, key m = k) rows.
Proof.
  unfold group_of. induction rows as [|m rows IH]; [done|].
  rewrite fmap_cons, (filter_cons (λ r, r.2 = k)), (filter_cons (λ m, key m = k)).
  simpl. case_decide; [rewrite fmap_cons|]; by rewrite IH.
Qed.

Lemma fmap_concat {A B : Type} (f : A → B) (gs : list (list A)) :
  fmap (M:=list) f (concat gs) = concat (fmap (M:=list) (fmap (M:=list) f) gs).
Proof.
  induction gs as [|g gs IH]; [done|].
  rewrite fmap_cons. simpl. by rewrite fmap_app, IH.
Qed.

Lemma regular_join (db : Norm.Database) (rows : list Norm.Mapping) :
  regular db rows →
  Norm.join_grouping_id db rows = (λ m, (m, latest_grouping_id db m)) <$> rows.
Proof.
  intros [_ Hrows]. apply join_regular. intros m Hm.
  destruct (Hrows m Hm) as (_ & h & rmh & g & Hh & _ & Hl). by exists h, rmh.
Qed.

Lemma regular_group (db : Norm.Database) (rows : list Norm.Mapping)
    (k : option Z) :
  regular db rows →
  fst <$> group_of snd (Norm.join_grouping_id db rows) k
  = filter (λ m, latest_grouping_id db m = k) rows.
Proof. intros Hreg. rewrite (regular_join db rows Hreg). apply group_of_pairs. Qed.

Lemma regular_keys (nulls_high : bool) (db : Norm.Database)
    (rows : list Norm.Mapping) (k : option Z) :
  regular db rows → k ∈ norm_keys nulls_high db rows →
  is_Some k ∧ k ∈ latest_grouping_id db <$> rows.
Proof.
  intros Hreg (p & Hp & <-)%elem_of_norm_keys.
  rewrite (regular_join db rows Hreg) in Hp. destruct Hreg as [_ Hrows].
  apply list_elem_of_fmap in Hp as (m & -> & Hm). simpl. split.
  - destruct (Hrows m Hm) as (_ & h & rmh & g & _ & Hg & Hl).
    unfold latest_grouping_id. rewrite Hl, Hg. by eexists.
  - apply list_elem_of_fmap. by exists m.
Qed.

Lemma regular_counts (nulls_high : bool) (db : Norm.Database)
    (rows : list Norm.Mapping) :
  regular db rows →
  (Norm.grouped_counts nulls_high db (Norm.mkQuerySet rows None)).1
  = (λ k, Sql.mkGroupCount k
            (length (filter (λ m, latest_grouping_id db m = k) rows)))
      <$> norm_keys nulls_high db rows.
Proof.
  intros Hreg. rewrite norm_counts_groups. apply list_fmap_ext. intros i k Hk.
  apply list_elem_of_lookup_2 in Hk.
  apply (regular_keys nulls_high db rows k Hreg) in Hk as [[g ->] _].
  rewrite count_expr_group. f_equal.
  by rewrite <- (regular_group db rows (Some g) Hreg), length_fmap.
Qed.

Lemma regular_fetched (nulls_high : bool) (db : Norm.Database)
    (rows : list Norm.Mapping) (offset limit : nat) :
  regular db rows →
  norm_fetched nulls_high db (Norm.mkQuerySet rows None) offset limit
  = concat ((λ k, filter (λ m, latest_grouping_id db m = k) rows)
              <$> take limit (drop offset (norm_keys nulls_high db rows))).
Proof.
  intros Hreg.
  set (keys := norm_keys nulls_high db rows).
  assert (Sql.total
            <$> (Norm.grouped_counts nulls_high db (Norm.mkQuerySet rows None)).1
          = length <$> (group_of snd (Norm.join_grouping_id db rows) <$> keys))
    as Htotals.
  { rewrite (regular_counts nulls_high db rows Hreg), <- !list_fmap_compose.
    apply list_fmap_ext. intros i k _. simpl.
    by rewrite <- (regular_group db rows k Hreg), length_fmap. }
  unfold norm_fetched, Norm.sub_qs. cbv zeta.
  rewrite qs_offset_take, qs_limit_take, Htotals. simpl Norm.rows.
  rewrite norm_rows_ordered. fold keys.
  set (gs := group_of snd (Norm.join_grouping_id db rows) <$> keys).
  rewrite <- fmap_drop, <- !fmap_take.
  rewrite (slice_sum_concat gs offset limit), fmap_concat. subst gs.
  rewrite <- fmap_drop, <- fmap_take, <- list_fmap_compose.
  f_equal. apply list_fmap_ext. intros i k _. by apply regular_group.
Qed.

(** On a regular row set the loop appends every fetched row, so the mapping
    returned is the list of the groups of the page. *)
Lemma regular_pages (nulls_high : bool) (db : Norm.Database)
    (rows : list Norm.Mapping) (offset limit : nat) :
  regular db rows →
  (Norm.grouped_slice nulls_high db (Norm.mkQuerySet rows None) offset limit).1
  = Py.Ok ((λ k, (k, filter (λ m, latest_grouping_id db m = k) rows))
             <$> take limit (drop offset (norm_keys nulls_high db rows))).
Proof.
  intros Hreg.
  pose proof (regular_join db rows Hreg) as Hjoin.
  pose proof (regular_fetched nulls_high db rows offset limit Hreg) as Hfetched.
  set (keys := norm_keys nulls_high db rows) in *.
  set (G := λ k, filter (λ m, latest_grouping_id db m = k) rows) in *.
  assert (NoDup (Norm.mapping_id
                   <$> norm_fetched nulls_high db (Norm.mkQuerySet rows None)
                         offset limit)) as Hids.
  { unfold norm_fetched, Norm.sub_qs. cbv zeta. simpl Norm.rows.
    assert (fst <$> Sql.order_by (Norm.by_grouping_id_asc nulls_high)
                      (Norm.join_grouping_id db rows) ≡ₚ rows) as Hperm.
    { rewrite order_by_perm, Hjoin, <- list_fmap_compose.
      by rewrite list_fmap_id. }
    assert (NoDup (Norm.mapping_id
                     <$> (fst <$> Sql.order_by
                                    (Norm.by_grouping_id_asc nulls_high)
                                    (Norm.join_grouping_id db rows)))) as Hall.
    { rewrite Hperm. by destruct Hreg. }
    eapply sublist_NoDup; [exact Hall|].
    apply fmap_sublist, fmap_sublist. unfold Py.slice.
    etrans; [apply sublist_take | apply sublist_drop]. }
  rewrite norm_grouped_slice_result.
  destruct (loop_regular db
              (norm_fetched nulls_high db (Norm.mkQuerySet rows None)
                 offset limit) (Norm.mkLoopState [] ∅) Hids)
    as (st' & Hrun & Hres).
  { intros x k _. unfold added_set. simpl. rewrite lookup_empty. simpl.
    apply not_elem_of_empty. }
  { intros x Hx%norm_fetched_rows. simpl in Hx. destruct Hreg as [_ Hrows].
    destruct (Hrows x Hx) as (Hcur & h & rmh & g & _ & _ & Hl).
    split; [done|]. by rewrite Hl. }
  rewrite Hrun. simpl. f_equal. rewrite Hres, Hfetched. simpl.
  rewrite (build_groups (latest_grouping_id db) G); [done | | |].
  - assert (NoDup keys) as Hndk.
    { unfold keys, norm_keys. rewrite order_by_perm. apply NoDup_remove_dups. }
    eapply sublist_NoDup; [exact Hndk|].
    etrans; [apply sublist_take | apply sublist_drop].
  - intros k _. apply not_elem_of_nil.
  - intros k Hk.
    assert (k ∈ keys) as Hin.
    { eapply elem_of_sublist; [exact Hk|].
      etrans; [apply sublist_take | apply sublist_drop]. }
    apply (regular_keys nulls_high db rows k Hreg) in Hin as [_ Hin]. split.
    + by apply (group_of_nonempty (latest_grouping_id db)).
    + by intros y [Hy _]%list_elem_of_filter.
Qed.

(** X14: on a regular row set of the normalized form (distinct mapping
    ids, each mapping with exactly one history entry, which has a grouping
    id and is in the latest release of its species), [grouped_slice] raises
    nothing and returns, for each entry of the counts at the indices from
    [offset] up to [offset + limit], in that order, the grouping id of the
    entry with the list of all mappings of the query set that have this
    grouping id. *)
Theorem norm_regular_pages_groups (nulls_high : bool) (db : Norm.Database)
    (rows : list Norm.Mapping) (offset limit : nat) :
  regular db rows →
  let self := Norm.mkQuerySet rows None in
  let counts := (Norm.grouped_counts nulls_high db self).1 in
  (Norm.grouped_slice nulls_high db self offset limit).1
  = Py.Ok ((λ c, (Sql.group_key c,
                  filter (λ m, latest_grouping_id db m = Sql.group_key c) rows))
             <$> Py.slice offset (offset + limit) counts).
Proof.
  intros Hreg self counts. subst self counts.
  rewrite (regular_pages nulls_high db rows offset limit Hreg).
  rewrite (regular_counts nulls_high db rows Hreg). unfold Py.slice.
  rewrite <- fmap_drop, <- fmap_take, <- list_fmap_compose.
  by replace (offset + limit - offset) with limit by lia.
Qed.

Lemma not_stale_current (db : Norm.Database) (m : Norm.Mapping)
    (h : Norm.MappingHistory)
    (rmh latest : Norm.ReleaseMappingHistory) :
  Norm.latest_history db m = Py.Ok (h, rmh) →
  Norm.species_latest db (Norm.uniprot_taxid rmh) = Py.Ok latest →
  Norm.release_mapping_history_id rmh = Norm.release_mapping_history_id latest →
  ¬ stale db m.
Proof.
  intros Hl Hs Heq (h' & rmh' & latest' & Hl' & Hs' & Hne).
  rewrite Hl in Hl'. injection Hl' as <- <-.
  rewrite Hs in Hs'. injection Hs' as <-. done.
Qed.

Lemma norm_regular_pages_groups_witness :
  (Norm.grouped_slice true paging_db
     (Norm.mkQuerySet [mapping_row 4 None None; mapping_row 1 None None;
                       mapping_row 5 None None] None) 0 2).1
  = Py.Ok [(Some 1%Z, [mapping_row 1 None None]);
           (Some 2%Z, [mapping_row 4 None None; mapping_row 5 None None])].
Proof.
  apply (norm_regular_pages_groups true paging_db
           [mapping_row 4 None None; mapping_row 1 None None;
            mapping_row 5 None None] 0 2).
  split.
  - apply (bool_decide_unpack _). vm_compute. exact I.
  - intros m Hm.
    apply elem_of_cons in Hm as [->|Hm];
      [|apply elem_of_cons in Hm as [->|Hm];
        [|apply list_elem_of_singleton in Hm as ->]].
    + split.
      * by eapply not_stale_current; [reflexivity..].
      * by eexists _, _, _.
    + split.
      * by eapply not_stale_current; [reflexivity..].
      * by eexists _, _, _.
    + split.
      * by eapply not_stale_current; [reflexivity..].
      * by eexists _, _, _.
Defined.

(** ** [has_patches()] of the denormalized form *)

Lemma upper_letter (c : Ascii.ascii) :
  (View.upper c = "C"%char ↔ c = "C"%char ∨ c = "c"%char)
  ∧ (View.upper c = "H"%char ↔ c = "H"%char ∨ c = "h"%char)
  ∧ (View.upper c = "R"%char ↔ c = "R"%char ∨ c = "r"%char).
Proof.
  assert (∀ x y : Ascii.ascii,
            bool_decide (View.upper c = x)
            = bool_decide (c = x ∨ c = y) →
            View.upper c = x ↔ c = x ∨ c = y) as Hdec.
  { intros x y H. by rewrite <- (bool_decide_eq_true (View.upper c = x)), H,
      bool_decide_eq_true. }
  split_and!; apply Hdec;
    destruct c as [[] [] [] [] [] [] [] []]; vm_compute; reflexivity.
Qed.

Lemma iregex_CHR_spec (a : option string) :
  View.iregex_CHR a = true ↔ starts_with_chr a.
Proof.
  unfold starts_with_chr. split.
  - destruct a as [[|c1 [|c2 [|c3 rest]]]|]; simpl; try done.
    rewrite !andb_true_iff, !bool_decide_eq_true. intros [[H1 H2] H3].
    exists c1, c2, c3, rest.
    destruct (upper_letter c1) as (HC & _ & _).
    destruct (upper_letter c2) as (_ & HH & _).
    destruct (upper_letter c3) as (_ & _ & HR).
    split_and!; [done | by apply HC | by apply HH | by apply HR].
  - intros (c1 & c2 & c3 & rest & -> & H1 & H2 & H3). simpl.
    rewrite !andb_true_iff, !bool_decide_eq_true.
    destruct (upper_letter c1) as (HC & _ & _).
    destruct (upper_letter c2) as (_ & HH & _).
    destruct (upper_letter c3) as (_ & _ & HR).
    split_and!; [by apply HC | by apply HH | by apply HR].
Qed.

Lemma filter_count_pos {A} (p : A → bool) (l : list A) :
  0 < filter_count p l ↔ ∃ x, x ∈ l ∧ p x = true.
Proof.
  induction l as [|x l IH].
  - split; [by intros ?%Nat.lt_irrefl | by intros (x & ?%elem_of_nil & _)].
  - rewrite filter_count_cons. split.
    + destruct (p x) eqn:Hp.
      * intros _. exists x. split; [by left | done].
      * simpl. intros (y & Hy & Hpy)%IH. exists y. split; [by right | done].
    + intros (y & [->|Hy]%elem_of_cons & Hpy).
      * rewrite Hpy. lia.
      * assert (0 < filter_count p l) by (apply IH; by exists y). lia.
Qed.

(** X15: [has_patches()] of the denormalized form answers [True] exactly
    when some row of the query set has a region accession that begins with
    the three letters c, h, r, each in either case; a row without region
    accession, and an accession that holds these letters elsewhere, do not
    count. *)
Theorem has_patches_case_insensitive_prefix (self : View.MappingViewQuerySet) :
  View.has_patches self = true
  ↔ ∃ r, r ∈ View.rows self ∧ starts_with_chr (View.region_accession r).
Proof.
  unfold View.has_patches. rewrite Nat.ltb_lt, filter_count_pos.
  split; intros (r & Hr & Hp); exists r; (split; [done|]).
  - by apply iregex_CHR_spec.
  - by apply iregex_CHR_spec.
Qed.

Lemma has_patches_case_insensitive_prefix_witness :
  View.has_patches
    (View.mkQuerySet
       [View.mkMappingView 1 None None None None None None None None;
        View.mkMappingView 2 None None None None None None
          (Some "xCHR_1"%string) None;
        View.mkMappingView 3 None None None None None None
          (Some "cHr_HSCHR1_1"%string) None] None) = true.
Proof.
  apply (has_patches_case_insensitive_prefix
           (View.mkQuerySet
              [View.mkMappingView 1 None None None None None None None None;
               View.mkMappingView 2 None None None None None None
                 (Some "xCHR_1"%string) None;
               View.mkMappingView 3 None None None None None None
                 (Some "cHr_HSCHR1_1"%string) None] None)).
  exists (View.mkMappingView 3 None None None None None None
            (Some "cHr_HSCHR1_1"%string) None).
  split; [by do 2 right; left|].
  exists "c"%char, "H"%char, "r"%char, "_HSCHR1_1"%string.
  split_and!; [reflexivity | by right | by left | by right].
Defined.

(** ** [species()] of the normalized form *)

Lemma elem_of_join_species_history (ms : list Norm.Mapping)
    (p : option Z * option string) :
  p ∈ Norm.join_species_history ms ↔ ∃ m, m ∈ ms ∧ species_pair_of m p.
Proof.
  unfold Norm.join_species_history, species_pair_of.
  rewrite list_elem_of_In, in_concat.
  setoid_rewrite <- list_elem_of_In. split.
  - intros (l & (m & -> & Hm)%list_elem_of_fmap & Hp). exists m.
    split; [done|].
    destruct (Norm.transcript__species_history m) as [|q qs].
    + apply list_elem_of_singleton in Hp. by right.
    + by left.
  - intros (m & Hm & Hp).
    exists (match Norm.transcript__species_history m with
            | [] => [(None, None)]
            | hs => hs
            end).
    split; [apply list_elem_of_fmap; by exists m|].
    destruct Hp as [Hp|[Hnil ->]].
    + destruct (Norm.transcript__species_history m); [|done].
      by apply elem_of_nil in Hp.
    + rewrite Hnil. by left.
Qed.

(** X16: [species()] of the normalized form lists no pair twice; a pair is
    listed exactly when some mapping of the query set has it in the species
    history of its transcript, or when it is the pair of two [None] and
    some mapping has no species history at all (the join is an outer join);
    so every mapping is represented by a pair, and the list is empty only
    for an empty query set. *)
Theorem norm_species_pairs (self : Norm.MappingQuerySet) :
  NoDup (Norm.species self)
  ∧ (∀ p, p ∈ Norm.species self
          ↔ ∃ m, m ∈ Norm.rows self ∧ species_pair_of m p)
  ∧ (∀ m, m ∈ Norm.rows self →
          ∃ p, p ∈ Norm.species self ∧ species_pair_of m p)
  ∧ (Norm.species self = [] ↔ Norm.rows self = []).
Proof.
  assert (∀ p, p ∈ Norm.species self
               ↔ ∃ m, m ∈ Norm.rows self ∧ species_pair_of m p) as Hin.
  { intros p. unfold Norm.species.
    rewrite elem_of_values_distinct, <- elem_of_join_species_history.
    split; [by intros (? & ? & <-) | intros ?; by exists p]. }
  assert (∀ m, m ∈ Norm.rows self →
               ∃ p, p ∈ Norm.species self ∧ species_pair_of m p) as Hevery.
  { intros m Hm.
    destruct (Norm.transcript__species_history m) as [|q qs] eqn:Hh.
    - exists (None, None).
      assert (species_pair_of m (None, None)) as Hp by (by right).
      split; [apply Hin; by exists m | done].
    - exists q.
      assert (species_pair_of m q) as Hp.
      { left. rewrite Hh. by left. }
      split; [apply Hin; by exists m | done]. }
  split_and!.
  - apply NoDup_remove_dups.
  - exact Hin.
  - exact Hevery.
  - split.
    + intros Hnil. destruct (Norm.rows self) as [|m ms] eqn:Hrows; [done|].
      destruct (Hevery m) as (p & Hp & _); [by left|].
      rewrite Hnil in Hp. by apply elem_of_nil in Hp.
    + intros Hrows. unfold Norm.species. by rewrite Hrows.
Qed.

Lemma norm_species_pairs_witness :
  ∃ p, p ∈ Norm.species
             (Norm.mkQuerySet
                [Norm.mkMapping 1 None 1 None
                   [(Some 9606%Z, Some "homo_sapiens"%string)];
                 mapping_row 2 None None] None)
       ∧ species_pair_of (mapping_row 2 None None) p.
Proof.
  destruct (norm_species_pairs
              (Norm.mkQuerySet
                 [Norm.mkMapping 1 None 1 None
                    [(Some 9606%Z, Some "homo_sapiens"%string)];
                  mapping_row 2 None None] None))
    as (_ & _ & Hevery & _).
  apply (Hevery (mapping_row 2 None None)). by right; left.
Defined.

(** ** The row range of a page *)




